(** * quodlibet/qltk/searchbar.py: the search bar widget

    A shallow embedding of [SearchBarBox] and [LimitSearchBarBox].  The widget
    is event wiring over three collaborators that live outside the file: the
    GLib main loop (idle and timeout sources), the [ComboBoxEntrySave] combo
    with its text entry, and the functions [Query.is_parsable] and
    [limit_songs].  The main loop is modelled as a table of pending sources
    with a millisecond clock, the combo as a log of the calls made on it, and
    the two functions are section variables. *)

From Stdlib Require Import List ZArith NArith QArith Qround Bool Lia.
From Stdlib Require Import String Ascii.
Import ListNotations.
Local Open Scope Z_scope.

(** ** Text

    [entry.get_text().decode('utf-8')] is a Python 2 [unicode] object: a
    sequence of code points.  GTK keeps the entry buffer valid UTF-8, so the
    decoding step cannot raise and the entry is modelled by its decoded
    content. *)

Definition text := list N.

(** Code points of an ASCII literal, for examples. *)
Definition utext (s : string) : text :=
  map N_of_ascii (list_ascii_of_string s).

(** Truth value of a Python sequence: [if text] holds of non-empty ones. *)
Definition truthy {A : Type} (l : list A) : bool :=
  match l with [] => false | _ :: _ => true end.

Section Strip.

(** [unicode.strip()] removes the leading and trailing code points that the
    interpreter's table classifies as whitespace. *)
Variable isspace : N -> bool.

Fixpoint lstrip (t : text) : text :=
  match t with
  | [] => []
  | c :: t' => if isspace c then lstrip t' else t
  end.

Definition rstrip (t : text) : text := rev (lstrip (rev t)).

Definition strip (t : text) : text := rstrip (lstrip t).

End Strip.

(** The whitespace table of CPython 2.7 ([_PyUnicode_IsWhitespace]). *)
Definition py_isspace (c : N) : bool :=
  (((9 <=? c) && (c <=? 13)) || ((28 <=? c) && (c <=? 32))
   || (c =? 133) || (c =? 160) || (c =? 5760) || (c =? 6158)
   || ((8192 <=? c) && (c <=? 8202)) || (c =? 8232) || (c =? 8233)
   || (c =? 8239) || (c =? 8287) || (c =? 12288))%N.

(** ** The GLib main context

    Sources are attached with a fresh numeric tag; an idle source is ready as
    soon as the loop iterates, a timeout source once its interval has elapsed
    since it was attached.  [source_remove] of a tag that is not attached
    changes nothing (GLib only logs a warning). *)

Module GLib.
Section Context.

Context {callback : Type}.

Inductive kind :=
| OnIdle
| OnTimeout (interval : Z).

Record source := {
  src_id : N;
  src_kind : kind;
  src_attached : Z;
  src_cb : callback
}.

Record main_context := {
  now : Z;
  next_id : N;
  pending : list source
}.

Definition empty : main_context :=
  {| now := 0; next_id := 1; pending := [] |}.

Definition has_id (id : N) (s : source) : bool := (src_id s =? id)%N.

Definition source_remove (id : N) (c : main_context) : main_context :=
  {| now := now c;
     next_id := next_id c;
     pending := filter (fun s => negb (has_id id s)) (pending c) |}.

Definition attach (k : kind) (cb : callback) (c : main_context)
  : N * main_context :=
  (next_id c,
   {| now := now c;
      next_id := N.succ (next_id c);
      pending := pending c ++
                 [{| src_id := next_id c; src_kind := k;
                     src_attached := now c; src_cb := cb |}] |}).

Definition idle_add (cb : callback) := attach OnIdle cb.

Definition timeout_add (interval : Z) (cb : callback) :=
  attach (OnTimeout interval) cb.

Definition lookup (id : N) (c : main_context) : option source :=
  find (has_id id) (pending c).

(** The time from which the loop may dispatch the source. *)
Definition due (s : source) : Z :=
  match src_kind s with
  | OnIdle => src_attached s
  | OnTimeout interval => src_attached s + interval
  end.

Definition ready (c : main_context) (s : source) : bool := due s <=? now c.

Definition elapse (d : Z) (c : main_context) : main_context :=
  {| now := now c + Z.max 0 d;
     next_id := next_id c;
     pending := pending c |}.

End Context.

Arguments source : clear implicits.
Arguments main_context : clear implicits.

End GLib.

(** ** SearchBarBox *)

(** What the widget hands to the main loop:
    [GLib.idle_add(self.emit, 'query-changed', text)] and
    [GLib.timeout_add(self.timeout, self.__filter_changed)]. *)
Inductive callback :=
| EmitQueryChanged (t : text)
| FilterChanged.

(** Calls made on the [ComboBoxEntrySave] history. *)
Inductive combo_call :=
| PrependText (t : text)
| WriteHistory.

(** Positional arguments a GTK signal passes after the emitting widget. *)
Inductive gvalue :=
| GdkEventFocus.

(** The instance state, together with the parts of the environment its
    handlers read or act on. *)
Record SearchBarBox := {
  entry_text : text;              (* content of self.__entry *)
  sig_blocked : nat;              (* handler_block count of self.__sig *)
  refill_id : option N;           (* self.__refill_id *)
  eager_search : bool;            (* config ('settings', 'eager_search') *)
  loop : GLib.main_context callback;
  emitted : list text;            (* 'query-changed' emissions, oldest first *)
  combo_calls : list combo_call   (* oldest first *)
}.

Definition with_entry_text (t : text) (s : SearchBarBox) : SearchBarBox :=
  {| entry_text := t; sig_blocked := sig_blocked s;
     refill_id := refill_id s; eager_search := eager_search s;
     loop := loop s; emitted := emitted s; combo_calls := combo_calls s |}.

Definition with_sig_blocked (n : nat) (s : SearchBarBox) : SearchBarBox :=
  {| entry_text := entry_text s; sig_blocked := n;
     refill_id := refill_id s; eager_search := eager_search s;
     loop := loop s; emitted := emitted s; combo_calls := combo_calls s |}.

Definition with_refill_id (r : option N) (s : SearchBarBox) : SearchBarBox :=
  {| entry_text := entry_text s; sig_blocked := sig_blocked s;
     refill_id := r; eager_search := eager_search s;
     loop := loop s; emitted := emitted s; combo_calls := combo_calls s |}.

Definition with_eager_search (b : bool) (s : SearchBarBox) : SearchBarBox :=
  {| entry_text := entry_text s; sig_blocked := sig_blocked s;
     refill_id := refill_id s; eager_search := b;
     loop := loop s; emitted := emitted s; combo_calls := combo_calls s |}.

Definition with_loop (c : GLib.main_context callback) (s : SearchBarBox)
  : SearchBarBox :=
  {| entry_text := entry_text s; sig_blocked := sig_blocked s;
     refill_id := refill_id s; eager_search := eager_search s;
     loop := c; emitted := emitted s; combo_calls := combo_calls s |}.

Definition with_emitted (l : list text) (s : SearchBarBox) : SearchBarBox :=
  {| entry_text := entry_text s; sig_blocked := sig_blocked s;
     refill_id := refill_id s; eager_search := eager_search s;
     loop := loop s; emitted := l; combo_calls := combo_calls s |}.

Definition with_combo_calls (l : list combo_call) (s : SearchBarBox)
  : SearchBarBox :=
  {| entry_text := entry_text s; sig_blocked := sig_blocked s;
     refill_id := refill_id s; eager_search := eager_search s;
     loop := loop s; emitted := emitted s; combo_calls := l |}.

(** [timeout = 400], the class attribute. *)
Definition timeout : Z := 400.

(** The sources of the main loop and their number. *)
Definition sources (s : SearchBarBox) : list (GLib.source callback) :=
  GLib.pending (loop s).

(** After [__init__]: nothing typed, nothing scheduled. *)
Definition init (eager : bool) : SearchBarBox :=
  {| entry_text := []; sig_blocked := 0%nat; refill_id := None;
     eager_search := eager; loop := GLib.empty; emitted := [];
     combo_calls := [] |}.

Section Handlers.

(** [Query.is_parsable], from quodlibet.parse. *)
Variable is_parsable : text -> bool.

(** The whitespace table behind [unicode.strip]. *)
Variable isspace : N -> bool.

(** [self.emit('query-changed', text)]: handlers of the signal belong to
    the rest of the application; the emission is recorded. *)
Definition emit_query_changed (t : text) (s : SearchBarBox) : SearchBarBox :=
  with_emitted (emitted s ++ [t]) s.

Definition inhibit (s : SearchBarBox) : SearchBarBox :=
  with_sig_blocked (S (sig_blocked s)) s.

Definition uninhibit (s : SearchBarBox) : SearchBarBox :=
  with_sig_blocked (pred (sig_blocked s)) s.

Definition remove_timeout (s : SearchBarBox) : SearchBarBox :=
  match refill_id s with
  | Some id => with_refill_id None (with_loop (GLib.source_remove id (loop s)) s)
  | None => s
  end.

Definition filter_changed (s : SearchBarBox) : SearchBarBox :=
  let s := remove_timeout s in
  let t := entry_text s in
  if is_parsable t then
    let (id, c) := GLib.idle_add (EmitQueryChanged t) (loop s) in
    with_refill_id (Some id) (with_loop c s)
  else s.

(** [act] is what [self.__combo.get_active()] returns when the handler
    runs; the combo decides it. *)
Definition text_changed (act : Z) (s : SearchBarBox) : SearchBarBox :=
  if negb (act =? -1) then filter_changed s
  else if negb (eager_search s) then s
  else
    let s := remove_timeout s in
    let t := entry_text s in
    if is_parsable t then
      let (id, c) := GLib.timeout_add timeout FilterChanged (loop s) in
      with_refill_id (Some id) (with_loop c s)
    else s.

(** The combo raises 'text-changed': GObject runs the handler connected as
    [self.__sig] unless it is blocked. *)
Definition raise_text_changed (act : Z) (s : SearchBarBox) : SearchBarBox :=
  match sig_blocked s with
  | O => text_changed act s
  | S _ => s
  end.

(** [self.__entry.set_text(text)]: the buffer changes and the combo raises
    'text-changed'. *)
Definition entry_set_text (t : text) (act : Z) (s : SearchBarBox)
  : SearchBarBox :=
  raise_text_changed act (with_entry_text t s).

(** [self.__combo.prepend_text(text)]: the row is added, which, as the
    source notes, raises the changed signal. *)
Definition combo_prepend_text (t : text) (act : Z) (s : SearchBarBox)
  : SearchBarBox :=
  raise_text_changed act
    (with_combo_calls (combo_calls s ++ [PrependText t]) s).

Definition combo_write (s : SearchBarBox) : SearchBarBox :=
  with_combo_calls (combo_calls s ++ [WriteHistory]) s.

Definition set_text (t : text) (act : Z) (s : SearchBarBox) : SearchBarBox :=
  let s := remove_timeout s in
  let s := inhibit s in
  let s := entry_set_text t act s in
  uninhibit s.

Definition get_text (s : SearchBarBox) : text := entry_text s.

Definition changed (s : SearchBarBox) : SearchBarBox := filter_changed s.

(** [args] is empty for 'activate' and holds the event for
    'focus-out-event'. *)
Definition save_search (args : list gvalue) (act : Z) (s : SearchBarBox)
  : SearchBarBox :=
  if truthy args && negb (eager_search s) then s
  else
    let t := strip isspace (entry_text s) in
    if truthy t && is_parsable t then
      let s := inhibit s in
      let s := combo_prepend_text t act s in
      let s := combo_write s in
      uninhibit s
    else s.

(** *** The main loop running the widget's sources *)

Definition run_callback (cb : callback) (s : SearchBarBox) : SearchBarBox :=
  match cb with
  | EmitQueryChanged t => emit_query_changed t s
  | FilterChanged => filter_changed s
  end.

(** One dispatch: the callback runs if the source is attached and ready;
    both callbacks return [None], so GLib destroys the source afterwards. *)
Definition dispatch (id : N) (s : SearchBarBox) : SearchBarBox :=
  match GLib.lookup id (loop s) with
  | Some src =>
      if GLib.ready (loop s) src then
        let s := run_callback (GLib.src_cb src) s in
        with_loop (GLib.source_remove id (loop s)) s
      else s
  | None => s
  end.

(** *** Events

    Everything that can happen to the widget: its public methods, the
    signals wired in [__init__], the configuration changing, time passing
    and the main loop dispatching. *)
Inductive event :=
| CallSetText (t : text) (act : Z)
| CallChanged
| ComboTextChanged (t : text) (act : Z)
| EntryBackspace (act : Z)
| EntryClear
| EntryActivate (act : Z)
| EntryFocusOut (act : Z)
| WidgetDestroy
| ConfigEager (b : bool)
| Elapse (d : Z)
| LoopDispatch (id : N).

Definition step (e : event) (s : SearchBarBox) : SearchBarBox :=
  match e with
  | CallSetText t act => set_text t act s
  | CallChanged => changed s
  | ComboTextChanged t act => raise_text_changed act (with_entry_text t s)
  | EntryBackspace act => text_changed act s
  | EntryClear => filter_changed s
  | EntryActivate act => save_search [] act (filter_changed s)
  | EntryFocusOut act => save_search [GdkEventFocus] act s
  | WidgetDestroy => remove_timeout s
  | ConfigEager b => with_eager_search b s
  | Elapse d => with_loop (GLib.elapse d (loop s)) s
  | LoopDispatch id => dispatch id s
  end.

Fixpoint run (es : list event) (s : SearchBarBox) : SearchBarBox :=
  match es with
  | [] => s
  | e :: es' => run es' (step e s)
  end.


End Handlers.

(** ** LimitSearchBarBox *)

(** *** The GTK spin button

    A [Gtk.SpinButton] keeps its value in an adjustment, a C double, written
    here as the rational it denotes.  Every way of changing the value (typing
    a number in numeric mode, the arrows, [set_value]) ends in the
    adjustment clamping it into [lower, upper]. *)

Record SpinButton := {
  adj_value : Q;
  adj_lower : Q;
  adj_upper : Q;
  sb_numeric : bool;
  sb_step : Q;
  sb_page : Q
}.

(** GLib's [CLAMP(x, low, high)]. *)
Definition CLAMP (x low high : Q) : Q :=
  if Qle_bool x high then (if Qle_bool low x then x else low) else high.

(** [Gtk.SpinButton()]: a fresh adjustment, all zero. *)
Definition SpinButton_new : SpinButton :=
  {| adj_value := 0; adj_lower := 0; adj_upper := 0;
     sb_numeric := false; sb_step := 0; sb_page := 0 |}.

Definition set_numeric (b : bool) (sb : SpinButton) : SpinButton :=
  {| adj_value := adj_value sb; adj_lower := adj_lower sb;
     adj_upper := adj_upper sb; sb_numeric := b;
     sb_step := sb_step sb; sb_page := sb_page sb |}.

Definition set_range (low high : Q) (sb : SpinButton) : SpinButton :=
  {| adj_value := CLAMP (adj_value sb) low high; adj_lower := low;
     adj_upper := high; sb_numeric := sb_numeric sb;
     sb_step := sb_step sb; sb_page := sb_page sb |}.

Definition set_increments (stp page : Q) (sb : SpinButton) : SpinButton :=
  {| adj_value := adj_value sb; adj_lower := adj_lower sb;
     adj_upper := adj_upper sb; sb_numeric := sb_numeric sb;
     sb_step := stp; sb_page := page |}.

Definition set_value (v : Q) (sb : SpinButton) : SpinButton :=
  {| adj_value := CLAMP v (adj_lower sb) (adj_upper sb);
     adj_lower := adj_lower sb; adj_upper := adj_upper sb;
     sb_numeric := sb_numeric sb;
     sb_step := sb_step sb; sb_page := sb_page sb |}.

(** [gtk_spin_button_get_value_as_int]: the nearer of floor and ceiling,
    the ceiling on a tie. *)
Definition get_value_as_int (sb : SpinButton) : Z :=
  let v := adj_value sb in
  if Qlt_le_dec (v - inject_Z (Qfloor v)) (inject_Z (Qceiling v) - v)
  then Qfloor v else Qceiling v.

(** *** LimitSearchBarBox.Limit *)

Record Limit := {
  limit_spin : SpinButton;      (* self.__limit *)
  weight_active : bool;         (* self.__weight *)
  limit_visible : bool;
  limit_no_show_all : bool
}.

(** [Limit.__init__]: the spin button is numeric with range 0..9999 and
    increments 5 and 100; the weight box starts unchecked and the box itself
    is not shown yet. *)
Definition Limit_init : Limit :=
  {| limit_spin :=
       set_increments 5 100 (set_range 0 9999 (set_numeric true SpinButton_new));
     weight_active := false;
     limit_visible := false;
     limit_no_show_all := false |}.

Definition value (l : Limit) : Z := get_value_as_int (limit_spin l).

Definition weighted (l : Limit) : bool := weight_active l.

Definition with_limit_spin (sb : SpinButton) (l : Limit) : Limit :=
  {| limit_spin := sb; weight_active := weight_active l;
     limit_visible := limit_visible l;
     limit_no_show_all := limit_no_show_all l |}.

Definition with_weight_active (b : bool) (l : Limit) : Limit :=
  {| limit_spin := limit_spin l; weight_active := b;
     limit_visible := limit_visible l;
     limit_no_show_all := limit_no_show_all l |}.

Definition with_limit_visible (b : bool) (l : Limit) : Limit :=
  {| limit_spin := limit_spin l; weight_active := weight_active l;
     limit_visible := b;
     limit_no_show_all := limit_no_show_all l |}.

Definition set_no_show_all (b : bool) (l : Limit) : Limit :=
  {| limit_spin := limit_spin l; weight_active := weight_active l;
     limit_visible := limit_visible l;
     limit_no_show_all := b |}.

(** *** The subclass *)

Record LimitSearchBarBox := {
  bar : SearchBarBox;     (* the inherited part *)
  limit_box : Limit       (* self.__limit *)
}.

Definition LimitSearchBarBox_init (show_limit eager : bool)
  : LimitSearchBarBox :=
  {| bar := init eager;
     limit_box := set_no_show_all (negb show_limit) Limit_init |}.

Section Limiting.

Variable is_parsable : text -> bool.
Variable isspace : N -> bool.

(** Songs are opaque to the widget. *)
Variable song : Type.

(** [limit_songs(songs, max, weight_by_ratings)], from quodlibet.util. *)
Variable limit_songs : list song -> Z -> bool -> list song.

Definition limit_changed (w : LimitSearchBarBox) : LimitSearchBarBox :=
  {| bar := changed is_parsable (bar w); limit_box := limit_box w |}.

Definition limit (w : LimitSearchBarBox) (songs : list song) : list song :=
  if limit_visible (limit_box w) then
    limit_songs songs (value (limit_box w)) (weighted (limit_box w))
  else songs.

Definition toggle_limit_widgets (button_active : bool)
    (w : LimitSearchBarBox) : LimitSearchBarBox :=
  let l := if button_active
           then with_limit_visible true (limit_box w)
           else with_limit_visible false (limit_box w) in
  {| bar := changed is_parsable (bar w); limit_box := l |}.

(** Events of the subclass: those of the base class, the user acting on
    the two controls (each raises the box's 'changed' signal when its
    state changes), the owner's toggle button, and [show_all] on an
    ancestor. *)
Inductive limit_event :=
| Base (e : event)
| SpinTo (v : Q)
| WeightToggled
| ToggleLimitWidgets (button_active : bool)
| ShowAll.

Definition limit_step (e : limit_event) (w : LimitSearchBarBox)
  : LimitSearchBarBox :=
  match e with
  | Base e => {| bar := step is_parsable isspace e (bar w);
                 limit_box := limit_box w |}
  | SpinTo v =>
      let sb := set_value v (limit_spin (limit_box w)) in
      let w' := {| bar := bar w;
                   limit_box := with_limit_spin sb (limit_box w) |} in
      if Qeq_bool (adj_value sb) (adj_value (limit_spin (limit_box w)))
      then w' else limit_changed w'
  | WeightToggled =>
      limit_changed
        {| bar := bar w;
           limit_box := with_weight_active
                          (negb (weight_active (limit_box w)))
                          (limit_box w) |}
  | ToggleLimitWidgets b => toggle_limit_widgets b w
  | ShowAll =>
      if limit_no_show_all (limit_box w) then w
      else {| bar := bar w;
              limit_box := with_limit_visible true (limit_box w) |}
  end.

Fixpoint limit_run (es : list limit_event) (w : LimitSearchBarBox)
  : LimitSearchBarBox :=
  match es with
  | [] => w
  | e :: es' => limit_run es' (limit_step e w)
  end.

End Limiting.

Arguments limit {song} limit_songs w songs.

(** ** Invariants and sample collaborators *)

(** At most one source is attached, [__refill_id] names it, and its tag is
    older than the next tag GLib will hand out. *)
Definition pending_ok (s : SearchBarBox) : Prop :=
  match sources s with
  | [] => True
  | [src] => refill_id s = Some (GLib.src_id src)
             /\ (GLib.src_id src < GLib.next_id (loop s))%N
  | _ :: _ :: _ => False
  end.

(** Between two events the 'text-changed' handler is not blocked. *)
Definition quiescent (s : SearchBarBox) : Prop :=
  sig_blocked s = 0%nat /\ pending_ok s.

(** The state in which whatever was pending is gone and [job], if any, is
    the one attached source, named by [__refill_id]. *)
Definition rearm (job : option (GLib.kind * callback)) (s : SearchBarBox)
  : SearchBarBox :=
  match job with
  | Some (k, cb) =>
      with_refill_id (Some (GLib.next_id (loop s)))
        (with_loop
           {| GLib.now := GLib.now (loop s);
              GLib.next_id := N.succ (GLib.next_id (loop s));
              GLib.pending :=
                [{| GLib.src_id := GLib.next_id (loop s);
                    GLib.src_kind := k;
                    GLib.src_attached := GLib.now (loop s);
                    GLib.src_cb := cb |}] |} s)
  | None =>
      with_refill_id None
        (with_loop
           {| GLib.now := GLib.now (loop s);
              GLib.next_id := GLib.next_id (loop s);
              GLib.pending := [] |} s)
  end.

Section Soundness.

Variable is_parsable : text -> bool.

(** A pending idle emission carries a text the parser accepted. *)
Definition carries_parsable (src : GLib.source callback) : Prop :=
  match GLib.src_cb src with
  | EmitQueryChanged t => is_parsable t = true
  | FilterChanged => True
  end.

Definition sound (s : SearchBarBox) : Prop :=
  Forall (fun t => is_parsable t = true) (emitted s)
  /\ Forall carries_parsable (sources s).

End Soundness.

(** A keystroke reaching [__text_changed]: the combo's 'text-changed' after
    an edit, or the entry's 'backspace', with no dropdown row active. *)
Definition keystroke (e : event) : Prop :=
  match e with
  | ComboTextChanged _ act => act = -1
  | EntryBackspace act => act = -1
  | _ => False
  end.

(** The one source [__text_changed] arms for a keystroke at state [s]. *)
Definition debounce_timer (s : SearchBarBox) : GLib.source callback :=
  {| GLib.src_id := GLib.next_id (loop s);
     GLib.src_kind := GLib.OnTimeout timeout;
     GLib.src_attached := GLib.now (loop s);
     GLib.src_cb := FilterChanged |}.

(** The one source [__filter_changed] attaches for an accepted text. *)
Definition idle_emission (s : SearchBarBox) : GLib.source callback :=
  {| GLib.src_id := GLib.next_id (loop s);
     GLib.src_kind := GLib.OnIdle;
     GLib.src_attached := GLib.now (loop s);
     GLib.src_cb := EmitQueryChanged (entry_text s) |}.

(** A keystroke burst: text edits and backspaces with no dropdown row
    active, less than [timeout] ms after the previous one, with the main
    loop free to iterate in between.  [since] is the time since the last
    keystroke. *)
Fixpoint spaced (since : Z) (es : list event) : Prop :=
  match es with
  | [] => True
  | ComboTextChanged _ act :: es' =>
      act = -1 /\ since < timeout /\ spaced 0 es'
  | EntryBackspace act :: es' =>
      act = -1 /\ since < timeout /\ spaced 0 es'
  | Elapse d :: es' => 0 <= d /\ spaced (since + d) es'
  | LoopDispatch _ :: es' => spaced since es'
  | _ => False
  end.

(** Where a burst can be, [since] ms after its last keystroke, when the
    emissions before it were [e0]: nothing pending, the debounce timer
    running, the idle emission of the current text pending (only once the
    delay has passed), or that emission done. *)
Definition burst_state (e0 : list text) (since : Z) (s : SearchBarBox)
  : Prop :=
  sig_blocked s = 0%nat /\ eager_search s = true /\ pending_ok s /\
  match sources s with
  | [] => emitted s = e0
          \/ (timeout <= since /\ emitted s = e0 ++ [entry_text s])
  | [src] =>
      emitted s = e0 /\
      match GLib.src_cb src with
      | FilterChanged =>
          GLib.src_kind src = GLib.OnTimeout timeout
          /\ GLib.src_attached src + since = GLib.now (loop s)
      | EmitQueryChanged t => timeout <= since /\ t = entry_text s
      end
  | _ :: _ :: _ => False
  end.

(** A stand-in for [Query.is_parsable] that rejects unbalanced
    parentheses, and one that accepts everything. *)
Fixpoint balanced (depth : nat) (t : text) : bool :=
  match t with
  | [] => Nat.eqb depth 0
  | c :: t' =>
      if (c =? 40)%N then balanced (S depth) t'
      else if (c =? 41)%N then
             match depth with O => false | S d => balanced d t' end
           else balanced depth t'
  end.

Definition sample_is_parsable (t : text) : bool := balanced 0 t.

Definition accept_all (t : text) : bool := true.

(** A stand-in for [limit_songs] that keeps the first [max] songs. *)
Definition sample_limit_songs (songs : list nat) (max : Z) (w : bool)
  : list nat :=
  if (max =? 0) || (Z.of_nat (List.length songs) <=? max) then songs
  else firstn (Z.to_nat max) songs.

(** The spin button as [Limit.__init__] leaves it: range 0..9999, value
    inside. *)
Definition spin_in_range (sb : SpinButton) : Prop :=
  adj_lower sb = 0%Q /\ adj_upper sb = 9999%Q
  /\ (0 <= adj_value sb)%Q /\ (adj_value sb <= 9999)%Q.

(** *** Sample runs *)

(** "a" is typed and the entry activated, with 'eager_search' off. *)
Definition activate_while_not_eager : list event :=
  [ComboTextChanged (utext "a") (-1); EntryActivate (-1)].

(** Two saved searches are picked from the dropdown 10 ms apart (rows 0 and
    1 active), the main loop iterating after each. *)
Definition dropdown_burst : list event :=
  [ComboTextChanged (utext "a") 0; LoopDispatch 1; Elapse 10;
   ComboTextChanged (utext "ab") 1; LoopDispatch 2].

(** "a", "ab", "abc" are typed 100 ms apart; the loop then runs the
    debounce timer and the idle emission. *)
Definition typing_burst : list event :=
  [Elapse 100; ComboTextChanged (utext "ab") (-1);
   Elapse 100; ComboTextChanged (utext "abc") (-1);
   Elapse 400; LoopDispatch 3; LoopDispatch 4].

(** "a" is typed with 'eager_search' on, the flag is switched off, "ab" is
    typed, and 400 ms later the loop runs the timer and the idle source.
    The entry is neither activated nor cleared. *)
Definition typing_after_flag_off : list event :=
  [ComboTextChanged (utext "a") (-1); ConfigEager false;
   ComboTextChanged (utext "ab") (-1); Elapse 400;
   LoopDispatch 1; LoopDispatch 2].

(** "a" is typed with 'eager_search' off, then [changed()] is called (as
    the limit controls do) and the loop runs the idle source. *)
Definition changed_while_not_eager : list event :=
  [ComboTextChanged (utext "a") (-1); CallChanged; LoopDispatch 1].

(** An unbalanced query is in the entry. *)
Definition typed_unbalanced : list event :=
  [ComboTextChanged (utext "(a") (-1)].

(** A limit box made visible, set to 25 songs, weighted. *)
Definition limit_shown : LimitSearchBarBox :=
  limit_run accept_all py_isspace
    [ToggleLimitWidgets true; SpinTo 25; WeightToggled]
    (LimitSearchBarBox_init false true).

(** *** Further notions *)

(** How many of the events are main loop dispatches. *)
Fixpoint dispatches (es : list event) : nat :=
  match es with
  | [] => 0%nat
  | LoopDispatch _ :: es' => S (dispatches es')
  | _ :: es' => dispatches es'
  end.

(** Events of the main loop alone: time passing and dispatching. *)
Definition loop_only (e : event) : bool :=
  match e with
  | Elapse _ | LoopDispatch _ => true
  | _ => false
  end.

Section History.

Variable is_parsable : text -> bool.
Variable isspace : N -> bool.

(** A history log made only of [prepend_text(t)]; [write()] pairs, each
    [t] non-empty, parsable and already stripped. *)
Inductive history_log : list combo_call -> Prop :=
| history_nil : history_log []
| history_saved l t :
    history_log l -> t <> [] -> is_parsable t = true ->
    strip isspace t = t ->
    history_log (l ++ [PrependText t; WriteHistory]).

End History.

(** The one limit event that shows the limit box. *)
Definition shows_limit (e : limit_event) : bool :=
  match e with
  | ToggleLimitWidgets true => true
  | _ => false
  end.

(** Opens a state into its fields, the loop included. *)
Ltac expose s :=
  let c := fresh "c" in
  destruct s as [? ? ? ? c ? ?]; destruct c as [? ? pd];
  unfold pending_ok, sources in *; simpl in *.

(** * Properties *)

Section HandlerFacts.

Variable is_parsable : text -> bool.
Variable isspace : N -> bool.


Lemma remove_timeout_frame s :
  entry_text (remove_timeout s) = entry_text s
  /\ sig_blocked (remove_timeout s) = sig_blocked s
  /\ eager_search (remove_timeout s) = eager_search s
  /\ emitted (remove_timeout s) = emitted s
  /\ combo_calls (remove_timeout s) = combo_calls s
  /\ GLib.now (loop (remove_timeout s)) = GLib.now (loop s)
  /\ GLib.next_id (loop (remove_timeout s)) = GLib.next_id (loop s).
Proof.
  unfold remove_timeout. destruct (refill_id s); simpl; repeat split.
Qed.

Lemma remove_timeout_incl s :
  incl (sources (remove_timeout s)) (sources s).
Proof.
  unfold remove_timeout, sources.
  destruct (refill_id s); simpl; [|apply incl_refl].
  intros x Hx. apply filter_In in Hx. tauto.
Qed.

Lemma remove_timeout_rearm s :
  pending_ok s -> remove_timeout s = rearm None s.
Proof.
  expose s. unfold remove_timeout, rearm; simpl.
  destruct pd as [|src [|src2 l]]; simpl.
  - intros _. destruct refill_id0; reflexivity.
  - intros [-> _]. simpl. unfold GLib.source_remove, GLib.has_id; simpl.
    rewrite N.eqb_refl. reflexivity.
  - intros [].
Qed.

(** [__filter_changed]: the pending source goes, and an idle emission of
    the entry text is attached when the text parses. *)
Lemma filter_changed_rearm s :
  pending_ok s ->
  filter_changed is_parsable s =
  rearm (if is_parsable (entry_text s)
         then Some (GLib.OnIdle, EmitQueryChanged (entry_text s))
         else None) s.
Proof.
  intros H. unfold filter_changed.
  rewrite (remove_timeout_rearm s H).
  expose s. destruct (is_parsable entry_text0); reflexivity.
Qed.

(** [__text_changed], by its three branches. *)
Lemma text_changed_rearm act s :
  pending_ok s ->
  text_changed is_parsable act s =
  if negb (act =? -1) then filter_changed is_parsable s
  else if negb (eager_search s) then s
  else rearm (if is_parsable (entry_text s)
              then Some (GLib.OnTimeout timeout, FilterChanged)
              else None) s.
Proof.
  intros H. unfold text_changed.
  destruct (negb (act =? -1)); [reflexivity|].
  destruct (negb (eager_search s)) eqn:E; [reflexivity|].
  rewrite (remove_timeout_rearm s H).
  expose s. destruct (is_parsable entry_text0); reflexivity.
Qed.

(** [set_text] only replaces the text and drops the pending source: the
    blocked handler never runs, whatever row the combo reports. *)
Lemma set_text_eq t act s :
  set_text is_parsable t act s = with_entry_text t (remove_timeout s).
Proof.
  unfold set_text, entry_set_text, raise_text_changed, inhibit, uninhibit.
  destruct (remove_timeout s); reflexivity.
Qed.

(** [__save_search] with the blocked signal folded away. *)
Lemma save_search_eq args act s :
  save_search is_parsable isspace args act s =
  if truthy args && negb (eager_search s) then s
  else if truthy (strip isspace (entry_text s))
          && is_parsable (strip isspace (entry_text s))
       then with_combo_calls
              (combo_calls s ++
               [PrependText (strip isspace (entry_text s)); WriteHistory]) s
       else s.
Proof.
  unfold save_search.
  destruct (truthy args && negb (eager_search s)); [reflexivity|].
  destruct (truthy (strip isspace (entry_text s))
            && is_parsable (strip isspace (entry_text s))); [|reflexivity].
  unfold combo_write, combo_prepend_text, raise_text_changed,
    inhibit, uninhibit.
  destruct s; simpl. rewrite <- app_assoc. reflexivity.
Qed.

Lemma rearm_pending_ok job s : pending_ok (rearm job s).
Proof.
  destruct job as [[k cb]|]; unfold pending_ok, sources; simpl; auto.
  split; [reflexivity | apply N.lt_succ_diag_r].
Qed.

Lemma rearm_frame job s :
  entry_text (rearm job s) = entry_text s
  /\ sig_blocked (rearm job s) = sig_blocked s
  /\ eager_search (rearm job s) = eager_search s
  /\ emitted (rearm job s) = emitted s
  /\ combo_calls (rearm job s) = combo_calls s
  /\ GLib.now (loop (rearm job s)) = GLib.now (loop s).
Proof. destruct job as [[k cb]|]; simpl; repeat split. Qed.

(** What one dispatch does when the invariant holds: nothing unless [id]
    names the attached source and that source is ready; an emission then
    leaves the loop empty, and a fired timer is [__filter_changed]. *)
Lemma dispatch_spec id s :
  pending_ok s ->
  dispatch is_parsable id s =
  match sources s with
  | [src] =>
      if (GLib.src_id src =? id)%N && GLib.ready (loop s) src then
        match GLib.src_cb src with
        | EmitQueryChanged t =>
            with_loop {| GLib.now := GLib.now (loop s);
                         GLib.next_id := GLib.next_id (loop s);
                         GLib.pending := [] |}
                      (emit_query_changed t s)
        | FilterChanged => filter_changed is_parsable s
        end
      else s
  | _ => s
  end.
Proof.
  intros H. unfold dispatch, GLib.lookup.
  destruct (sources s) as [|src [|src2 l]] eqn:E; unfold sources in E;
    rewrite E; simpl.
  - reflexivity.
  - unfold GLib.has_id at 1.
    destruct (GLib.src_id src =? id)%N eqn:Eid; simpl; [|reflexivity].
    destruct (GLib.ready (loop s) src); [|reflexivity].
    apply N.eqb_eq in Eid.
    destruct (GLib.src_cb src) eqn:Ecb; simpl.
    + unfold GLib.source_remove, emit_query_changed; simpl. rewrite E. simpl.
      unfold GLib.has_id. rewrite Eid, N.eqb_refl. reflexivity.
    + rewrite (filter_changed_rearm s H).
      assert (Hlt : (id < GLib.next_id (loop s))%N).
      { unfold pending_ok, sources in H. rewrite E in H.
        rewrite <- Eid. apply H. }
      destruct (is_parsable (entry_text s)); simpl;
        unfold GLib.source_remove, GLib.has_id, with_loop, with_refill_id;
        simpl; [|reflexivity].
      replace (GLib.next_id (loop s) =? id)%N with false; [reflexivity|].
      symmetry. apply N.eqb_neq. lia.
  - unfold pending_ok, sources in H. rewrite E in H. destruct H.
Qed.

Lemma init_quiescent eager : quiescent (init eager).
Proof. split; [reflexivity | exact I]. Qed.

Lemma filter_changed_quiescent s :
  quiescent s -> quiescent (filter_changed is_parsable s).
Proof.
  intros [Hb Hp]. rewrite (filter_changed_rearm s Hp). split.
  - rewrite (proj1 (proj2 (rearm_frame _ s))). exact Hb.
  - apply rearm_pending_ok.
Qed.

Lemma text_changed_quiescent act s :
  quiescent s -> quiescent (text_changed is_parsable act s).
Proof.
  intros Hq. rewrite (text_changed_rearm act s (proj2 Hq)).
  destruct (negb (act =? -1)); [apply filter_changed_quiescent; exact Hq|].
  destruct (negb (eager_search s)); [exact Hq|].
  split.
  - rewrite (proj1 (proj2 (rearm_frame _ s))). apply Hq.
  - apply rearm_pending_ok.
Qed.

Lemma save_search_quiescent args act s :
  quiescent s -> quiescent (save_search is_parsable isspace args act s).
Proof.
  intros Hq. rewrite save_search_eq.
  destruct (truthy args && negb (eager_search s)); [exact Hq|].
  destruct (truthy _ && is_parsable _); exact Hq.
Qed.

Lemma step_quiescent e s :
  quiescent s -> quiescent (step is_parsable isspace e s).
Proof.
  intros Hq. destruct e; simpl.
  - rewrite set_text_eq, (remove_timeout_rearm s (proj2 Hq)).
    assert (H : quiescent (rearm None s))
      by (split; [apply Hq | apply (rearm_pending_ok None)]).
    exact H.
  - apply filter_changed_quiescent; exact Hq.
  - unfold raise_text_changed; simpl. rewrite (proj1 Hq).
    apply text_changed_quiescent.
    assert (H : quiescent s) by exact Hq. exact H.
  - apply text_changed_quiescent; exact Hq.
  - apply filter_changed_quiescent; exact Hq.
  - apply save_search_quiescent, filter_changed_quiescent; exact Hq.
  - apply save_search_quiescent; exact Hq.
  - rewrite (remove_timeout_rearm s (proj2 Hq)).
    split; [apply Hq | apply (rearm_pending_ok None)].
  - exact Hq.
  - exact Hq.
  - rewrite (dispatch_spec id s (proj2 Hq)).
    destruct (sources s) as [|src [|src2 l]] eqn:E; try exact Hq.
    destruct ((GLib.src_id src =? id)%N && GLib.ready (loop s) src);
      [|exact Hq].
    destruct (GLib.src_cb src).
    + split; [apply Hq | exact I].
    + apply filter_changed_quiescent; exact Hq.
Qed.

Lemma rearm_sound job s :
  sound is_parsable s ->
  match job with
  | Some (_, EmitQueryChanged t) => is_parsable t = true
  | _ => True
  end ->
  sound is_parsable (rearm job s).
Proof.
  intros [He _] Hjob. split.
  - rewrite (proj1 (proj2 (proj2 (proj2 (rearm_frame job s))))). exact He.
  - destruct job as [[k cb]|]; unfold sources; simpl; constructor.
    + unfold carries_parsable; simpl. destruct cb; auto.
    + constructor.
Qed.

Lemma filter_changed_sound s :
  pending_ok s -> sound is_parsable s ->
  sound is_parsable (filter_changed is_parsable s).
Proof.
  intros Hp Hs. rewrite (filter_changed_rearm s Hp).
  apply rearm_sound; [exact Hs|].
  destruct (is_parsable (entry_text s)) eqn:E; auto.
Qed.

Lemma text_changed_sound act s :
  pending_ok s -> sound is_parsable s ->
  sound is_parsable (text_changed is_parsable act s).
Proof.
  intros Hp Hs. rewrite (text_changed_rearm act s Hp).
  destruct (negb (act =? -1)); [apply filter_changed_sound; assumption|].
  destruct (negb (eager_search s)); [exact Hs|].
  apply rearm_sound; [exact Hs|].
  destruct (is_parsable (entry_text s)); exact I.
Qed.

Lemma save_search_sound args act s :
  sound is_parsable s ->
  sound is_parsable (save_search is_parsable isspace args act s).
Proof.
  intros Hs. rewrite save_search_eq.
  destruct (truthy args && negb (eager_search s)); [exact Hs|].
  destruct (truthy _ && is_parsable _); exact Hs.
Qed.

Lemma step_sound e s :
  quiescent s -> sound is_parsable s ->
  sound is_parsable (step is_parsable isspace e s).
Proof.
  intros [Hb Hp] Hs. destruct e; simpl.
  - rewrite set_text_eq, (remove_timeout_rearm s Hp).
    assert (H : sound is_parsable (rearm None s))
      by (apply rearm_sound; [exact Hs | exact I]).
    exact H.
  - apply filter_changed_sound; assumption.
  - unfold raise_text_changed; simpl. rewrite Hb.
    apply text_changed_sound; [exact Hp | exact Hs].
  - apply text_changed_sound; assumption.
  - apply filter_changed_sound; assumption.
  - apply save_search_sound, filter_changed_sound; assumption.
  - apply save_search_sound; assumption.
  - rewrite (remove_timeout_rearm s Hp).
    apply rearm_sound; [exact Hs | exact I].
  - exact Hs.
  - exact Hs.
  - rewrite (dispatch_spec id s Hp).
    destruct (sources s) as [|src [|src2 l]] eqn:E; try exact Hs.
    destruct ((GLib.src_id src =? id)%N && GLib.ready (loop s) src);
      [|exact Hs].
    destruct (GLib.src_cb src) eqn:Ecb.
    + destruct Hs as [He Hsrc]. rewrite E in Hsrc.
      apply Forall_inv in Hsrc. unfold carries_parsable in Hsrc.
      rewrite Ecb in Hsrc.
      split; simpl.
      * apply Forall_app. split; [exact He | constructor; auto].
      * constructor.
    + apply filter_changed_sound; assumption.
Qed.

Lemma run_invariant es : forall s,
  quiescent s -> sound is_parsable s ->
  quiescent (run is_parsable isspace es s)
  /\ sound is_parsable (run is_parsable isspace es s).
Proof.
  induction es as [|e es IH]; intros s Hq Hs; simpl; [auto|].
  apply IH; [apply step_quiescent | apply step_sound]; assumption.
Qed.

Lemma init_sound eager : sound is_parsable (init eager).
Proof. split; constructor. Qed.

Lemma reachable_invariant eager es :
  quiescent (run is_parsable isspace es (init eager))
  /\ sound is_parsable (run is_parsable isspace es (init eager)).
Proof. apply run_invariant; [apply init_quiescent | apply init_sound]. Qed.

(** With a rejected text, neither handler attaches anything. *)
Lemma rejected_filter_changed s :
  is_parsable (entry_text s) = false ->
  filter_changed is_parsable s = remove_timeout s.
Proof.
  intros H. unfold filter_changed.
  rewrite (proj1 (remove_timeout_frame s)), H. reflexivity.
Qed.

Lemma rejected_text_changed act s :
  is_parsable (entry_text s) = false ->
  text_changed is_parsable act s = remove_timeout s
  \/ text_changed is_parsable act s = s.
Proof.
  intros H. unfold text_changed.
  destruct (negb (act =? -1)); [left; apply rejected_filter_changed, H|].
  destruct (negb (eager_search s)); [right; reflexivity|].
  left. rewrite (proj1 (remove_timeout_frame s)), H. reflexivity.
Qed.

(** C1. Every 'query-changed' emission of a run of the widget carries a
    text that [Query.is_parsable] accepts, and so does every emission still
    pending; and when the parser rejects the entry text, none of
    [__filter_changed], [__text_changed] and [changed()] attaches a source:
    what is pending afterwards was pending before. *)
Theorem query_changed_only_parsable eager es :
  let s := run is_parsable isspace es (init eager) in
  Forall (fun t => is_parsable t = true) (emitted s)
  /\ Forall (carries_parsable is_parsable) (sources s)
  /\ (is_parsable (entry_text s) = false ->
      forall act,
        incl (sources (filter_changed is_parsable s)) (sources s)
        /\ incl (sources (text_changed is_parsable act s)) (sources s)
        /\ incl (sources (changed is_parsable s)) (sources s)).
Proof.
  intros s. destruct (reachable_invariant eager es) as [_ [He Hs]].
  split; [exact He|]. split; [exact Hs|].
  intros Hrej act. unfold changed.
  rewrite (rejected_filter_changed s Hrej).
  split; [apply remove_timeout_incl|].
  split; [|apply remove_timeout_incl].
  destruct (rejected_text_changed act s Hrej) as [-> | ->];
    [apply remove_timeout_incl | apply incl_refl].
Qed.

(** The history is touched by [__save_search] alone. *)
Lemma combo_calls_remove_timeout s :
  combo_calls (remove_timeout s) = combo_calls s.
Proof. apply remove_timeout_frame. Qed.

Lemma combo_calls_filter_changed s :
  combo_calls (filter_changed is_parsable s) = combo_calls s.
Proof.
  unfold filter_changed.
  destruct (is_parsable _); simpl; apply combo_calls_remove_timeout.
Qed.

Lemma combo_calls_text_changed act s :
  combo_calls (text_changed is_parsable act s) = combo_calls s.
Proof.
  unfold text_changed.
  destruct (negb (act =? -1)); [apply combo_calls_filter_changed|].
  destruct (negb (eager_search s)); [reflexivity|].
  destruct (is_parsable _); simpl; apply combo_calls_remove_timeout.
Qed.

Lemma combo_calls_dispatch id s :
  combo_calls (dispatch is_parsable id s) = combo_calls s.
Proof.
  unfold dispatch. destruct (GLib.lookup id (loop s)) as [src|]; auto.
  destruct (GLib.ready (loop s) src); auto. simpl.
  destruct (GLib.src_cb src); simpl; auto.
  apply combo_calls_filter_changed.
Qed.

Lemma entry_text_filter_changed s :
  entry_text (filter_changed is_parsable s) = entry_text s.
Proof.
  unfold filter_changed.
  destruct (is_parsable _); simpl; apply remove_timeout_frame.
Qed.

(** What activation does to the history, whatever the flag. *)
Lemma activate_combo_calls act s :
  combo_calls (step is_parsable isspace (EntryActivate act) s) =
  combo_calls s ++
  (if truthy (strip isspace (entry_text s))
      && is_parsable (strip isspace (entry_text s))
   then [PrependText (strip isspace (entry_text s)); WriteHistory]
   else []).
Proof.
  simpl. rewrite save_search_eq. simpl.
  rewrite entry_text_filter_changed.
  destruct (truthy _ && is_parsable _); simpl;
    rewrite combo_calls_filter_changed; [reflexivity|].
  symmetry; apply app_nil_r.
Qed.

(** C2, amended. The flag gates persistence on the focus-out path only:
    with 'eager_search' disabled a focus-out leaves the history alone,
    whereas activation prepends and writes a non-empty parsable query
    whatever the flag says; and an event that changes the history is an
    activation, or a focus-out with the flag enabled. *)
Theorem persistence_gated_on_focus_out act s :
  (eager_search s = false ->
   combo_calls (step is_parsable isspace (EntryFocusOut act) s)
   = combo_calls s)
  /\ (truthy (strip isspace (entry_text s))
      && is_parsable (strip isspace (entry_text s)) = true ->
      combo_calls (step is_parsable isspace (EntryActivate act) s)
      = combo_calls s
        ++ [PrependText (strip isspace (entry_text s)); WriteHistory])
  /\ (forall e,
        combo_calls (step is_parsable isspace e s) <> combo_calls s ->
        (exists a, e = EntryActivate a)
        \/ (exists a, e = EntryFocusOut a /\ eager_search s = true)).
Proof.
  split; [|split].
  - intros Hoff. simpl. rewrite save_search_eq, Hoff. reflexivity.
  - intros Hok. rewrite activate_combo_calls, Hok. reflexivity.
  - intros e Hne. destruct e; unfold step in Hne.
    + exfalso. apply Hne. rewrite set_text_eq. simpl.
      apply combo_calls_remove_timeout.
    + exfalso. apply Hne, combo_calls_filter_changed.
    + exfalso. apply Hne. unfold raise_text_changed.
      destruct (sig_blocked _); [|reflexivity].
      rewrite combo_calls_text_changed. reflexivity.
    + exfalso. apply Hne, combo_calls_text_changed.
    + exfalso. apply Hne, combo_calls_filter_changed.
    + left. eexists. reflexivity.
    + right. exists act0. split; [reflexivity|].
      destruct (eager_search s) eqn:E; [reflexivity|].
      exfalso. apply Hne. rewrite save_search_eq, E. reflexivity.
    + exfalso. apply Hne, combo_calls_remove_timeout.
    + exfalso. apply Hne. reflexivity.
    + exfalso. apply Hne. reflexivity.
    + exfalso. apply Hne, combo_calls_dispatch.
Qed.

(** C4. On activation the stripped entry text is prepended to the history
    and the history is written exactly when the stripped text is non-empty
    and parsable; otherwise no call reaches the history. *)
Theorem activate_saves_parsable_query act s :
  combo_calls (step is_parsable isspace (EntryActivate act) s) =
  combo_calls s ++
  (if truthy (strip isspace (entry_text s))
      && is_parsable (strip isspace (entry_text s))
   then [PrependText (strip isspace (entry_text s)); WriteHistory]
   else []).
Proof. apply activate_combo_calls. Qed.

(** With nothing attached the main loop has nothing to run. *)
Lemma idle_loop_inert d id s :
  sources s = [] ->
  step is_parsable isspace (LoopDispatch id)
    (step is_parsable isspace (Elapse d) s)
  = step is_parsable isspace (Elapse d) s.
Proof.
  intros H. simpl. unfold dispatch, GLib.lookup; simpl.
  unfold sources in H. rewrite H. reflexivity.
Qed.

(** C3. A keystroke (an edit or a backspace reported with no dropdown
    row active) made while 'eager_search' is enabled and leaving a parsable
    text emits nothing itself: it leaves exactly one source attached, a
    timeout of [timeout] = 400 ms running [__filter_changed], and until
    those 400 ms have elapsed no iteration of the main loop changes
    anything. *)
Theorem keystroke_is_debounced eager es e :
  let s := run is_parsable isspace es (init eager) in
  let s' := step is_parsable isspace e s in
  keystroke e ->
  eager_search s = true ->
  is_parsable (entry_text s') = true ->
  timeout = 400
  /\ emitted s' = emitted s
  /\ sources s' = [debounce_timer s]
  /\ refill_id s' = Some (GLib.src_id (debounce_timer s))
  /\ GLib.due (debounce_timer s) = GLib.now (loop s') + 400
  /\ (forall d id, d < 400 ->
        step is_parsable isspace (LoopDispatch id)
          (step is_parsable isspace (Elapse d) s')
        = step is_parsable isspace (Elapse d) s').
Proof.
  intros s s' Hkey Heager Hok.
  destruct (reachable_invariant eager es) as [[Hb Hp] _]. fold s in Hb, Hp.
  assert (Hs' : exists t, s' = rearm (Some (GLib.OnTimeout timeout,
                                            FilterChanged))
                                     (with_entry_text t s)).
  { subst s'. destruct e; simpl in Hkey; try contradiction; subst act.
    - exists t. revert Hok. simpl. unfold raise_text_changed. simpl.
      rewrite Hb. rewrite (text_changed_rearm (-1) (with_entry_text t s) Hp).
      simpl. rewrite Heager. simpl.
      destruct (is_parsable t) eqn:Et; [reflexivity|].
      intros Hok. simpl in Hok. congruence.
    - exists (entry_text s). revert Hok. simpl.
      rewrite (text_changed_rearm (-1) s Hp). simpl. rewrite Heager. simpl.
      destruct (is_parsable (entry_text s)) eqn:Et.
      + intros _. destruct s; reflexivity.
      + intros Hok. simpl in Hok. congruence. }
  destruct Hs' as [t Hs']. rewrite Hs'.
  split; [reflexivity|]. split; [reflexivity|]. split; [reflexivity|].
  split; [reflexivity|]. split; [reflexivity|].
  intros d id Hd. simpl. unfold dispatch, GLib.lookup, GLib.has_id; simpl.
  destruct (GLib.next_id (loop s) =? id)%N; simpl; [|reflexivity].
  unfold GLib.ready, GLib.due; simpl.
  replace (_ <=? _) with false; [reflexivity|].
  symmetry. apply Z.leb_gt. unfold timeout. lia.
Qed.

(** C7. [changed()] on a widget reached by any run: when the parser
    accepts the entry text, the one source attached afterwards is an idle
    emission of that text, named by [__refill_id]; when it rejects the
    text, nothing is attached afterwards, whatever was pending before.
    Nothing is emitted by the call itself. *)
Theorem changed_schedules_iff_parsable eager es :
  let s := run is_parsable isspace es (init eager) in
  let s' := changed is_parsable s in
  (is_parsable (entry_text s) = true ->
   sources s' = [idle_emission s]
   /\ refill_id s' = Some (GLib.src_id (idle_emission s)))
  /\ (is_parsable (entry_text s) = false ->
      sources s' = [] /\ refill_id s' = None)
  /\ emitted s' = emitted s.
Proof.
  intros s s'.
  destruct (reachable_invariant eager es) as [[_ Hp] _]. fold s in Hp.
  subst s'. unfold changed. rewrite (filter_changed_rearm s Hp).
  split; [|split].
  - intros ->. split; reflexivity.
  - intros ->. split; reflexivity.
  - apply rearm_frame.
Qed.

(** C8, amended. With 'eager_search' disabled and no dropdown row active,
    a 'text-changed' event never schedules an emission:
    [__text_changed] returns the state it was given, so an edit only
    replaces the entry text and a backspace changes nothing; no source is
    attached and nothing is emitted, and a focus-out does nothing either.
    Search-as-you-type is thus disabled, not merely debounced, while
    'activate' and 'clear' still attach the idle emission of a parsable
    text. *)
Theorem no_search_as_you_type_when_not_eager eager es :
  let s := run is_parsable isspace es (init eager) in
  eager_search s = false ->
  text_changed is_parsable (-1) s = s
  /\ (forall t, step is_parsable isspace (ComboTextChanged t (-1)) s
                = with_entry_text t s)
  /\ step is_parsable isspace (EntryBackspace (-1)) s = s
  /\ (forall act, step is_parsable isspace (EntryFocusOut act) s = s)
  /\ (is_parsable (entry_text s) = true ->
      sources (step is_parsable isspace EntryClear s) = [idle_emission s]
      /\ forall act,
           sources (step is_parsable isspace (EntryActivate act) s)
           = [idle_emission s]).
Proof.
  intros s Hoff.
  destruct (reachable_invariant eager es) as [[Hb Hp] _]. fold s in Hb, Hp.
  assert (Htc : forall u, eager_search u = false ->
                          text_changed is_parsable (-1) u = u).
  { intros u Hu. unfold text_changed. simpl. rewrite Hu. reflexivity. }
  split; [apply Htc, Hoff|]. split; [|split; [|split]].
  - intros t. simpl. unfold raise_text_changed. simpl. rewrite Hb.
    apply Htc. exact Hoff.
  - simpl. apply Htc, Hoff.
  - intros act. simpl. rewrite save_search_eq, Hoff. reflexivity.
  - intros Hok. simpl. split.
    + rewrite (filter_changed_rearm s Hp), Hok. reflexivity.
    + intros act. rewrite save_search_eq.
      destruct (truthy [] && _); [|destruct (truthy _ && _)]; simpl;
        rewrite (filter_changed_rearm s Hp), Hok; reflexivity.
Qed.

(** C9. [set_text(text)] on a widget reached by any run yields the same
    widget with the entry text replaced and the pending source, if any,
    removed: nothing is emitted, the history receives no call, the flag
    and the handler block count are as before, no source is attached,
    and no later iteration of the main loop finds anything to run. *)
Theorem set_text_only_replaces_text eager es t act :
  let s := run is_parsable isspace es (init eager) in
  let s' := set_text is_parsable t act s in
  s' = with_entry_text t (rearm None s)
  /\ entry_text s' = t
  /\ emitted s' = emitted s
  /\ combo_calls s' = combo_calls s
  /\ eager_search s' = eager_search s
  /\ sig_blocked s' = sig_blocked s
  /\ sources s' = []
  /\ refill_id s' = None
  /\ (forall d id,
        step is_parsable isspace (LoopDispatch id)
          (step is_parsable isspace (Elapse d) s')
        = step is_parsable isspace (Elapse d) s').
Proof.
  intros s s'.
  destruct (reachable_invariant eager es) as [[_ Hp] _]. fold s in Hp.
  assert (E : s' = with_entry_text t (rearm None s)).
  { subst s'. rewrite set_text_eq, (remove_timeout_rearm s Hp).
    reflexivity. }
  rewrite E. repeat (split; [reflexivity|]).
  intros d id. apply idle_loop_inert. reflexivity.
Qed.

(** A keystroke restarts the burst: timer armed, or nothing pending. *)
Lemma burst_keystroke e0 since s :
  burst_state e0 since s -> since < timeout ->
  burst_state e0 0 (text_changed is_parsable (-1) s).
Proof.
  intros (Hb & He & Hp & Hs) Hlt.
  assert (Hem : emitted s = e0).
  { destruct (sources s) as [|src [|src2 l]].
    - destruct Hs as [H | [H _]]; [exact H | lia].
    - apply Hs.
    - destruct Hs. }
  rewrite (text_changed_rearm (-1) s Hp). simpl. rewrite He. simpl.
  destruct (is_parsable (entry_text s)); unfold burst_state; simpl;
    repeat split; auto using N.lt_succ_diag_r; lia.
Qed.

Lemma burst_elapse e0 since d s :
  burst_state e0 since s -> 0 <= d ->
  burst_state e0 (since + d) (with_loop (GLib.elapse d (loop s)) s).
Proof.
  intros (Hb & He & Hp & Hs) Hd.
  unfold burst_state. split; [exact Hb|]. split; [exact He|].
  split; [exact Hp|].
  change (sources (with_loop (GLib.elapse d (loop s)) s)) with (sources s).
  destruct (sources s) as [|src [|src2 l]]; simpl.
  - destruct Hs as [H | [H1 H2]]; [left; exact H | right; split; [lia|exact H2]].
  - destruct Hs as [H1 H2]. split; [exact H1|].
    destruct (GLib.src_cb src).
    + split; [lia | apply H2].
    + split; [apply H2|]. destruct H2 as [_ H2]. lia.
  - destruct Hs.
Qed.

Lemma burst_dispatch e0 since id s :
  burst_state e0 since s ->
  burst_state e0 since (dispatch is_parsable id s).
Proof.
  intros Hbs. pose proof Hbs as (Hb & He & Hp & Hs).
  rewrite (dispatch_spec id s Hp).
  destruct (sources s) as [|src [|src2 l]] eqn:E; try exact Hbs.
  destruct ((GLib.src_id src =? id)%N && GLib.ready (loop s) src) eqn:R;
    [|exact Hbs].
  apply andb_prop in R. destruct R as [_ R].
  destruct Hs as [Hem Hs].
  destruct (GLib.src_cb src) eqn:Ecb.
  - destruct Hs as [Hge ->].
    unfold burst_state, pending_ok, sources; simpl.
    repeat split; auto. right. split; [exact Hge|]. rewrite Hem. reflexivity.
  - destruct Hs as [Hk Ha].
    assert (Hge : timeout <= since).
    { unfold GLib.ready, GLib.due in R. rewrite Hk in R.
      apply Z.leb_le in R. lia. }
    rewrite (filter_changed_rearm s Hp).
    destruct (is_parsable (entry_text s)); unfold burst_state; simpl;
      repeat split; auto using N.lt_succ_diag_r.
Qed.

Lemma burst_run e0 es : forall since s,
  burst_state e0 since s -> spaced since es ->
  exists since', burst_state e0 since' (run is_parsable isspace es s).
Proof.
  induction es as [|e es IH]; intros since s Hbs Hsp.
  - exists since. exact Hbs.
  - destruct e; simpl in Hsp; try contradiction.
    + destruct Hsp as (-> & Hlt & Hsp). apply (IH 0); [|exact Hsp].
      simpl. unfold raise_text_changed. simpl.
      rewrite (proj1 Hbs).
      apply (burst_keystroke e0 since (with_entry_text t s)); [|exact Hlt].
      destruct Hbs as (Hb & He & Hp & Hs).
      assert (Hem : emitted s = e0).
      { destruct (sources s) as [|src [|src2 l]].
        - destruct Hs as [H | [H _]]; [exact H | lia].
        - apply Hs.
        - destruct Hs. }
      unfold burst_state. split; [exact Hb|]. split; [exact He|].
      split; [exact Hp|].
      change (sources (with_entry_text t s)) with (sources s).
      destruct (sources s) as [|src [|src2 l]]; simpl.
      * left. exact Hem.
      * split; [exact Hem|]. destruct Hs as [_ Hs].
        destruct (GLib.src_cb src); [lia | exact Hs].
      * destruct Hs.
    + destruct Hsp as (-> & Hlt & Hsp). apply (IH 0); [|exact Hsp].
      simpl. apply (burst_keystroke e0 since s); assumption.
    + destruct Hsp as (Hd & Hsp). apply (IH (since + d)); [|exact Hsp].
      simpl. apply burst_elapse; assumption.
    + apply (IH since); [|exact Hsp]. simpl. apply burst_dispatch, Hbs.
Qed.

Lemma burst_state_emitted e0 since s :
  burst_state e0 since s ->
  emitted s = e0 \/ emitted s = e0 ++ [entry_text s].
Proof.
  intros (_ & _ & _ & Hs).
  destruct (sources s) as [|src [|src2 l]].
  - destruct Hs as [H | [_ H]]; auto.
  - left. apply Hs.
  - destruct Hs.
Qed.

Lemma pending_ok_length s : pending_ok s -> (List.length (sources s) <= 1)%nat.
Proof.
  unfold pending_ok. destruct (sources s) as [|src [|src2 l]]; simpl; lia.
Qed.

(** C6, amended. In every state a run of the widget reaches at most one
    source is attached, and it is the one [__refill_id] names, which every
    scheduling removes first.  A burst of keystrokes with no dropdown row
    active, made while 'eager_search' is enabled and each less than
    [timeout] ms after the previous one, adds at most one 'query-changed'
    emission, however the main loop iterates in between and afterwards,
    and that emission carries the text the entry holds at the end. *)
Theorem keystroke_burst_emits_at_most_once eager pre :
  let s := run is_parsable isspace pre (init eager) in
  pending_ok s
  /\ (List.length (sources s) <= 1)%nat
  /\ (forall e es,
        keystroke e -> eager_search s = true -> spaced 0 es ->
        let s' := run is_parsable isspace (e :: es) s in
        emitted s' = emitted s
        \/ emitted s' = emitted s ++ [entry_text s']).
Proof.
  intros s.
  destruct (reachable_invariant eager pre) as [[Hb Hp] _]. fold s in Hb, Hp.
  split; [exact Hp|]. split; [apply pending_ok_length, Hp|].
  intros e es Hkey He Hsp s'.
  assert (H0 : burst_state (emitted s) 0 s
               \/ exists src, sources s = [src]).
  { unfold burst_state. unfold pending_ok in Hp.
    destruct (sources s) as [|src [|src2 l]] eqn:E.
    - left. repeat split; auto. unfold pending_ok. rewrite E. exact I.
    - right. exists src. reflexivity.
    - destruct Hp. }
  assert (H1 : burst_state (emitted s) 0 (step is_parsable isspace e s)).
  { assert (Hk : forall u, sig_blocked u = 0%nat -> eager_search u = true ->
                           pending_ok u ->
                           burst_state (emitted u) 0
                             (text_changed is_parsable (-1) u)).
    { intros u Hub Hue Hup.
      rewrite (text_changed_rearm (-1) u Hup). simpl. rewrite Hue. simpl.
      destruct (is_parsable (entry_text u)); unfold burst_state; simpl;
        repeat split; auto using N.lt_succ_diag_r; lia. }
    destruct e; simpl in Hkey; try contradiction; subst act; simpl.
    - unfold raise_text_changed. simpl. rewrite Hb.
      apply (Hk (with_entry_text t s)); assumption.
    - apply Hk; assumption. }
  destruct (burst_run (emitted s) es 0 _ H1 Hsp) as [since' Hfin].
  apply (burst_state_emitted _ _ _ Hfin).
Qed.

End HandlerFacts.


(** ** The limit box *)

Lemma CLAMP_range x low high :
  (low <= high)%Q -> (low <= CLAMP x low high)%Q /\ (CLAMP x low high <= high)%Q.
Proof.
  intros Hlh. unfold CLAMP.
  destruct (Qle_bool x high) eqn:E1.
  - apply Qle_bool_iff in E1.
    destruct (Qle_bool low x) eqn:E2.
    + apply Qle_bool_iff in E2. split; assumption.
    + split; [apply Qle_refl | exact Hlh].
  - split; [exact Hlh | apply Qle_refl].
Qed.

Lemma Limit_init_in_range : spin_in_range (limit_spin Limit_init).
Proof.
  unfold spin_in_range; simpl. repeat split; vm_compute; congruence.
Qed.

Lemma set_value_in_range v sb :
  spin_in_range sb -> spin_in_range (set_value v sb).
Proof.
  intros (Hl & Hu & _ & _). unfold spin_in_range; simpl.
  rewrite Hl, Hu. split; [reflexivity|]. split; [reflexivity|].
  apply CLAMP_range. vm_compute; congruence.
Qed.

(** Rounding a value of the range stays in the range. *)
Lemma get_value_as_int_range sb :
  spin_in_range sb -> 0 <= get_value_as_int sb <= 9999.
Proof.
  intros (_ & _ & H0 & H9). unfold get_value_as_int.
  pose proof (Qfloor_resp_le _ _ H0) as Hf.
  pose proof (Qceiling_resp_le _ _ H9) as Hc.
  pose proof (Qle_floor_ceiling (adj_value sb)) as Hfc.
  change 0%Q with (inject_Z 0) in Hf. rewrite Qfloor_Z in Hf.
  change 9999%Q with (inject_Z 9999) in Hc. rewrite Qceiling_Z in Hc.
  rewrite <- Zle_Qle in Hfc.
  destruct (Qlt_le_dec _ _); lia.
Qed.

Section LimitFacts.

Variable is_parsable : text -> bool.
Variable isspace : N -> bool.
Variable song : Type.
Variable limit_songs : list song -> Z -> bool -> list song.

Lemma limit_step_in_range e w :
  spin_in_range (limit_spin (limit_box w)) ->
  spin_in_range (limit_spin (limit_box (limit_step is_parsable isspace e w))).
Proof.
  intros H. destruct e; simpl; try exact H.
  - destruct (Qeq_bool _ _); simpl; apply set_value_in_range, H.
  - destruct button_active; exact H.
  - destruct (limit_no_show_all (limit_box w)); exact H.
Qed.

Lemma limit_run_in_range es : forall w,
  spin_in_range (limit_spin (limit_box w)) ->
  spin_in_range (limit_spin (limit_box (limit_run is_parsable isspace es w))).
Proof.
  induction es as [|e es IH]; intros w H; simpl; [exact H|].
  apply IH, limit_step_in_range, H.
Qed.

(** C5. [limit(songs)] returns [songs] itself when the limit box is not
    visible, and [limit_songs(songs, value, weighted)] when it is, [value]
    being the spin button's integer value and [weighted] the state of the
    weight check box. *)
Theorem limit_is_optional (w : LimitSearchBarBox) (songs : list song) :
  (limit_visible (limit_box w) = false -> limit limit_songs w songs = songs)
  /\ (limit_visible (limit_box w) = true ->
      limit limit_songs w songs
      = limit_songs songs
          (get_value_as_int (limit_spin (limit_box w)))
          (weight_active (limit_box w))).
Proof.
  unfold limit, value, weighted. split; intros ->; reflexivity.
Qed.

(** C10. Whatever happens to a [LimitSearchBarBox] after construction, the
    value the limit box reports is an integer between 0 and 9999, so
    [limit] either returns the songs untouched or calls [limit_songs] with
    a count in that range. *)
Theorem limit_count_in_range show_limit eager es songs :
  let w := limit_run is_parsable isspace es
             (LimitSearchBarBox_init show_limit eager) in
  0 <= value (limit_box w) <= 9999
  /\ (limit limit_songs w songs = songs
      \/ exists n, 0 <= n <= 9999
                   /\ limit limit_songs w songs
                      = limit_songs songs n (weighted (limit_box w))).
Proof.
  intros w.
  assert (H : 0 <= value (limit_box w) <= 9999).
  { apply get_value_as_int_range. subst w.
    apply limit_run_in_range. exact Limit_init_in_range. }
  split; [exact H|].
  unfold limit. destruct (limit_visible (limit_box w)); [right|left; reflexivity].
  exists (value (limit_box w)). split; [exact H | reflexivity].
Qed.

End LimitFacts.

(** ** Counterexamples and instances *)

(** C2 as stated fails: with 'eager_search' disabled, typing "a" and
    activating the entry prepends "a" to the history and writes it. *)
Lemma persisted_while_eager_search_disabled :
  eager_search (run accept_all py_isspace activate_while_not_eager
                  (init false)) = false
  /\ combo_calls (run accept_all py_isspace activate_while_not_eager
                    (init false))
     = [PrependText (utext "a"); WriteHistory].
Proof. split; reflexivity. Qed.

(** C6 as stated fails: two 'text-changed' events 10 ms apart, each with a
    dropdown row active, yield two emissions. *)
Lemma dropdown_burst_emits_twice :
  emitted (run accept_all py_isspace dropdown_burst (init true))
  = [utext "a"; utext "ab"].
Proof. reflexivity. Qed.

(** C8 as stated fails in its last clause: with 'eager_search' disabled
    and no dropdown row active, a query is propagated without any
    activation or clear.  The text "ab", typed after the flag was switched
    off, is emitted by the timer armed before; and [changed()] emits the
    typed text with the flag off throughout. *)
Lemma query_propagated_without_activation :
  eager_search (run sample_is_parsable py_isspace
                  [ComboTextChanged (utext "a") (-1); ConfigEager false]
                  (init true)) = false
  /\ forallb (fun e => match e with
                       | EntryActivate _ | EntryClear => false
                       | _ => true
                       end)
       (typing_after_flag_off ++ changed_while_not_eager) = true
  /\ emitted (run sample_is_parsable py_isspace typing_after_flag_off
                (init true))
     = [utext "ab"]
  /\ eager_search (run sample_is_parsable py_isspace changed_while_not_eager
                     (init false)) = false
  /\ emitted (run sample_is_parsable py_isspace changed_while_not_eager
                (init false))
     = [utext "a"].
Proof. repeat split. Qed.

Lemma query_changed_only_parsable_witness :
  sample_is_parsable
    (entry_text (run sample_is_parsable py_isspace typed_unbalanced
                   (init true))) = false
  /\ incl
       (sources (changed sample_is_parsable
                   (run sample_is_parsable py_isspace typed_unbalanced
                      (init true))))
       (sources (run sample_is_parsable py_isspace typed_unbalanced
                   (init true))).
Proof.
  split; [reflexivity|].
  exact (proj2 (proj2 (proj2 (proj2
           (query_changed_only_parsable sample_is_parsable py_isspace
              true typed_unbalanced)) eq_refl 0))).
Defined.

Lemma persistence_gated_on_focus_out_witness :
  eager_search (run accept_all py_isspace
                  [ComboTextChanged (utext "a") (-1)] (init false)) = false
  /\ combo_calls
       (step accept_all py_isspace (EntryFocusOut (-1))
          (run accept_all py_isspace
             [ComboTextChanged (utext "a") (-1)] (init false)))
     = combo_calls (run accept_all py_isspace
                      [ComboTextChanged (utext "a") (-1)] (init false)).
Proof.
  split; [reflexivity|].
  apply (proj1 (persistence_gated_on_focus_out accept_all py_isspace (-1)
                  (run accept_all py_isspace
                     [ComboTextChanged (utext "a") (-1)] (init false)))).
  reflexivity.
Defined.

Lemma keystroke_is_debounced_witness :
  keystroke (ComboTextChanged (utext "abc") (-1))
  /\ eager_search (init true) = true
  /\ sources (step sample_is_parsable py_isspace
                (ComboTextChanged (utext "abc") (-1)) (init true))
     = [debounce_timer (init true)].
Proof.
  split; [reflexivity|]. split; [reflexivity|].
  apply (keystroke_is_debounced sample_is_parsable py_isspace true []
           (ComboTextChanged (utext "abc") (-1))); reflexivity.
Defined.

Lemma limit_is_optional_witness :
  limit_visible (limit_box limit_shown) = true
  /\ limit sample_limit_songs limit_shown [1; 2; 3]%nat
     = sample_limit_songs [1; 2; 3]%nat 25 true.
Proof.
  split; [reflexivity|].
  apply (proj2 (limit_is_optional nat sample_limit_songs limit_shown
                  [1; 2; 3]%nat)).
  reflexivity.
Defined.

Lemma keystroke_burst_emits_at_most_once_witness :
  spaced 0 typing_burst
  /\ (emitted (run sample_is_parsable py_isspace
                 (ComboTextChanged (utext "a") (-1) :: typing_burst)
                 (init true))
      = emitted (init true)
      \/ emitted (run sample_is_parsable py_isspace
                    (ComboTextChanged (utext "a") (-1) :: typing_burst)
                    (init true))
         = emitted (init true)
           ++ [entry_text
                 (run sample_is_parsable py_isspace
                    (ComboTextChanged (utext "a") (-1) :: typing_burst)
                    (init true))]).
Proof.
  assert (Hsp : spaced 0 typing_burst).
  { simpl. unfold timeout. repeat split; lia. }
  split; [exact Hsp|].
  apply (proj2 (proj2 (keystroke_burst_emits_at_most_once
                         sample_is_parsable py_isspace true []))).
  - reflexivity.
  - reflexivity.
  - exact Hsp.
Defined.

Lemma changed_schedules_iff_parsable_witness :
  sample_is_parsable
    (entry_text (run sample_is_parsable py_isspace
                   [ComboTextChanged (utext "(a)") (-1)] (init false)))
  = true
  /\ sources (changed sample_is_parsable
                (run sample_is_parsable py_isspace
                   [ComboTextChanged (utext "(a)") (-1)] (init false)))
     = [idle_emission
          (run sample_is_parsable py_isspace
             [ComboTextChanged (utext "(a)") (-1)] (init false))].
Proof.
  split; [reflexivity|].
  apply (proj1 (changed_schedules_iff_parsable sample_is_parsable py_isspace
                  false [ComboTextChanged (utext "(a)") (-1)])).
  reflexivity.
Defined.

Lemma no_search_as_you_type_when_not_eager_witness :
  eager_search (run sample_is_parsable py_isspace
                  [ComboTextChanged (utext "a") (-1)] (init false)) = false
  /\ step sample_is_parsable py_isspace (ComboTextChanged (utext "ab") (-1))
       (run sample_is_parsable py_isspace
          [ComboTextChanged (utext "a") (-1)] (init false))
     = with_entry_text (utext "ab")
         (run sample_is_parsable py_isspace
            [ComboTextChanged (utext "a") (-1)] (init false)).
Proof.
  split; [reflexivity|].
  apply (no_search_as_you_type_when_not_eager sample_is_parsable py_isspace
           false [ComboTextChanged (utext "a") (-1)]).
  reflexivity.
Defined.


(** * Further properties *)

(** ** [unicode.strip] *)

Section StripFacts.

Variable isspace : N -> bool.

Lemma lstrip_split t :
  exists p, t = p ++ lstrip isspace t /\ forallb isspace p = true.
Proof.
  induction t as [|c t IH]; simpl.
  - exists []. split; reflexivity.
  - destruct (isspace c) eqn:E.
    + destruct IH as (p & Hp & Hs). exists (c :: p). simpl.
      rewrite E, Hs. split; [f_equal; exact Hp | reflexivity].
    + exists []. split; reflexivity.
Qed.

Lemma lstrip_head t :
  match lstrip isspace t with
  | [] => True
  | c :: _ => isspace c = false
  end.
Proof.
  induction t as [|c t IH]; simpl; [exact I|].
  destruct (isspace c) eqn:E; [exact IH | exact E].
Qed.

Lemma lstrip_fixed t :
  match t with [] => True | c :: _ => isspace c = false end ->
  lstrip isspace t = t.
Proof. destruct t as [|c t]; simpl; [reflexivity | intros ->; reflexivity]. Qed.

Lemma lstrip_idem t : lstrip isspace (lstrip isspace t) = lstrip isspace t.
Proof. apply lstrip_fixed, lstrip_head. Qed.

Lemma rstrip_idem t : rstrip isspace (rstrip isspace t) = rstrip isspace t.
Proof. unfold rstrip. rewrite rev_involutive, lstrip_idem. reflexivity. Qed.

(** [rstrip] only removes a suffix. *)
Lemma rstrip_prefix t : exists q, t = rstrip isspace t ++ q.
Proof.
  unfold rstrip. destruct (lstrip_split (rev t)) as (p & Hp & _).
  exists (rev p). rewrite <- rev_app_distr, <- Hp, rev_involutive.
  reflexivity.
Qed.

Lemma lstrip_rstrip t :
  match t with [] => True | c :: _ => isspace c = false end ->
  lstrip isspace (rstrip isspace t) = rstrip isspace t.
Proof.
  intros H. apply lstrip_fixed.
  destruct (rstrip_prefix t) as [q Hq].
  destruct (rstrip isspace t) as [|c r]; [exact I|].
  rewrite Hq in H. exact H.
Qed.

Lemma strip_idem t : strip isspace (strip isspace t) = strip isspace t.
Proof.
  unfold strip. rewrite (lstrip_rstrip (lstrip isspace t) (lstrip_head t)).
  apply rstrip_idem.
Qed.

Lemma lstrip_blank t : forallb isspace t = true -> lstrip isspace t = [].
Proof.
  induction t as [|c t IH]; simpl; [reflexivity|].
  intros H. apply andb_prop in H. destruct H as [-> H]. exact (IH H).
Qed.

Lemma strip_blank t : forallb isspace t = true -> strip isspace t = [].
Proof. intros H. unfold strip. rewrite (lstrip_blank t H). reflexivity. Qed.

End StripFacts.

(** ** Emissions, history and cancellation *)

Section RunFacts.

Variable is_parsable : text -> bool.
Variable isspace : N -> bool.

Lemma emitted_filter_changed s :
  emitted (filter_changed is_parsable s) = emitted s.
Proof.
  unfold filter_changed.
  destruct (is_parsable _); simpl; apply remove_timeout_frame.
Qed.

Lemma emitted_text_changed act s :
  emitted (text_changed is_parsable act s) = emitted s.
Proof.
  unfold text_changed.
  destruct (negb (act =? -1)); [apply emitted_filter_changed|].
  destruct (negb (eager_search s)); [reflexivity|].
  destruct (is_parsable _); simpl; apply remove_timeout_frame.
Qed.

Lemma emitted_save_search args act s :
  emitted (save_search is_parsable isspace args act s) = emitted s.
Proof.
  rewrite save_search_eq.
  destruct (truthy args && negb (eager_search s)); [reflexivity|].
  destruct (truthy _ && is_parsable _); reflexivity.
Qed.

(** Only a dispatch emits, and one text at most. *)
Lemma emitted_step e s :
  exists l,
    emitted (step is_parsable isspace e s) = emitted s ++ l
    /\ (List.length l <= dispatches [e])%nat.
Proof.
  destruct e.
  1-10: exists (@nil text); rewrite app_nil_r; split; [|simpl; lia];
    unfold step.
  - rewrite set_text_eq. simpl. apply remove_timeout_frame.
  - apply emitted_filter_changed.
  - unfold raise_text_changed. destruct (sig_blocked _); [|reflexivity].
    rewrite emitted_text_changed. reflexivity.
  - apply emitted_text_changed.
  - apply emitted_filter_changed.
  - rewrite emitted_save_search. apply emitted_filter_changed.
  - apply emitted_save_search.
  - apply remove_timeout_frame.
  - reflexivity.
  - reflexivity.
  - unfold step, dispatch.
    destruct (GLib.lookup id (loop s)) as [src|];
      [|exists (@nil text); rewrite app_nil_r; split; [reflexivity | simpl; lia]].
    destruct (GLib.ready (loop s) src);
      [|exists (@nil text); rewrite app_nil_r; split; [reflexivity | simpl; lia]].
    destruct (GLib.src_cb src); simpl.
    + exists [t]. split; [reflexivity | simpl; lia].
    + exists (@nil text). rewrite app_nil_r, emitted_filter_changed.
      split; [reflexivity | simpl; lia].
Qed.

(** X1. No handler emits 'query-changed' itself: over any sequence of
    events from any state the emission log only grows at its end, and by at
    most as many texts as the main loop made dispatches. *)
Theorem emissions_bounded_by_dispatches es : forall s,
  exists l,
    emitted (run is_parsable isspace es s) = emitted s ++ l
    /\ (List.length l <= dispatches es)%nat.
Proof.
  induction es as [|e es IH]; intros s.
  - exists []. rewrite app_nil_r. split; [reflexivity | simpl; lia].
  - destruct (emitted_step e s) as (l1 & H1 & L1).
    destruct (IH (step is_parsable isspace e s)) as (l2 & H2 & L2).
    exists (l1 ++ l2). simpl run. rewrite H2, H1, app_assoc.
    split; [reflexivity|]. rewrite length_app.
    assert (dispatches (e :: es) = (dispatches [e] + dispatches es)%nat)
      by (destruct e; reflexivity).
    lia.
Qed.

Lemma history_log_save_search args act s :
  history_log is_parsable isspace (combo_calls s) ->
  history_log is_parsable isspace
    (combo_calls (save_search is_parsable isspace args act s)).
Proof.
  intros H. rewrite save_search_eq.
  destruct (truthy args && negb (eager_search s)); [exact H|].
  destruct (truthy (strip isspace (entry_text s))
            && is_parsable (strip isspace (entry_text s))) eqn:E;
    [|exact H].
  apply andb_prop in E. destruct E as [Et Ep]. simpl.
  apply history_saved; [exact H | | exact Ep | apply strip_idem].
  intros Hnil. rewrite Hnil in Et. discriminate.
Qed.

Lemma history_log_step e s :
  history_log is_parsable isspace (combo_calls s) ->
  history_log is_parsable isspace
    (combo_calls (step is_parsable isspace e s)).
Proof.
  intros H. destruct e; unfold step.
  - rewrite set_text_eq. simpl. rewrite combo_calls_remove_timeout. exact H.
  - unfold changed. rewrite combo_calls_filter_changed. exact H.
  - unfold raise_text_changed. destruct (sig_blocked _); [|exact H].
    rewrite combo_calls_text_changed. exact H.
  - rewrite combo_calls_text_changed. exact H.
  - rewrite combo_calls_filter_changed. exact H.
  - apply history_log_save_search.
    rewrite combo_calls_filter_changed. exact H.
  - apply history_log_save_search, H.
  - rewrite combo_calls_remove_timeout. exact H.
  - exact H.
  - exact H.
  - rewrite combo_calls_dispatch. exact H.
Qed.

Lemma run_history_log es : forall s,
  history_log is_parsable isspace (combo_calls s) ->
  history_log is_parsable isspace
    (combo_calls (run is_parsable isspace es s)).
Proof.
  induction es as [|e es IH]; intros s Hs; simpl; [exact Hs|].
  apply IH, history_log_step, Hs.
Qed.

(** X2. Whatever happens to the widget, the calls it has made on the
    saved-searches history are [prepend_text(t)] immediately followed by
    [write()], with [t] non-empty, parsable and free of surrounding
    whitespace. *)
Theorem history_only_holds_clean_queries eager es :
  history_log is_parsable isspace
    (combo_calls (run is_parsable isspace es (init eager))).
Proof. apply run_history_log. constructor. Qed.

(** X3. A focus-out, whatever row the combo reports, neither attaches nor
    removes a source, emits nothing, and leaves the text, the flag and the
    handler block count alone; the history receives the stripped text and a
    write exactly when 'eager_search' is enabled and the stripped text is
    non-empty and parsable. *)
Theorem focus_out_only_saves act s :
  let s' := step is_parsable isspace (EntryFocusOut act) s in
  let t := strip isspace (entry_text s) in
  loop s' = loop s
  /\ refill_id s' = refill_id s
  /\ emitted s' = emitted s
  /\ entry_text s' = entry_text s
  /\ eager_search s' = eager_search s
  /\ sig_blocked s' = sig_blocked s
  /\ combo_calls s'
     = combo_calls s
       ++ (if eager_search s && truthy t && is_parsable t
           then [PrependText t; WriteHistory] else []).
Proof.
  intros s' t. subst s' t. unfold step. rewrite save_search_eq. simpl.
  destruct (eager_search s) eqn:E; simpl.
  - destruct (truthy _ && is_parsable _); simpl;
      rewrite ?app_nil_r; repeat split; exact E.
  - rewrite app_nil_r. repeat split; exact E.
Qed.

(** X4. After any sequence of events the 'text-changed' handler is
    connected and unblocked: every [__inhibit] has met its
    [__uninhibit]. *)
Theorem handler_never_left_blocked eager es :
  sig_blocked (run is_parsable isspace es (init eager)) = 0%nat.
Proof. apply (reachable_invariant is_parsable isspace eager es). Qed.

Lemma loop_only_inert es : forall s,
  sources s = [] -> forallb loop_only es = true ->
  emitted (run is_parsable isspace es s) = emitted s
  /\ sources (run is_parsable isspace es s) = [].
Proof.
  induction es as [|e es IH]; intros s Hs Hl; simpl; [auto|].
  simpl in Hl. apply andb_prop in Hl. destruct Hl as [He Hl].
  destruct e; simpl in He; try discriminate; unfold step.
  - apply (IH (with_loop (GLib.elapse d (loop s)) s)); assumption.
  - unfold dispatch, GLib.lookup. unfold sources in Hs. rewrite Hs. simpl.
    apply IH; assumption.
Qed.

(** X5. Cancellation is final: once the widget is destroyed, or
    [set_text] has been called, nothing is attached to the main loop, and
    however long the loop then runs on its own it emits nothing. *)
Theorem cancelled_query_is_never_emitted eager es e es' :
  let s := run is_parsable isspace es (init eager) in
  (e = WidgetDestroy \/ exists t act, e = CallSetText t act) ->
  forallb loop_only es' = true ->
  sources (step is_parsable isspace e s) = []
  /\ emitted (run is_parsable isspace (e :: es') s) = emitted s.
Proof.
  intros s He Hl.
  destruct (reachable_invariant is_parsable isspace eager es) as [[_ Hp] _].
  fold s in Hp.
  assert (Hs : sources (step is_parsable isspace e s) = []
               /\ emitted (step is_parsable isspace e s) = emitted s).
  { destruct He as [-> | (t & act & ->)]; unfold step.
    - rewrite (remove_timeout_rearm s Hp). split; reflexivity.
    - rewrite set_text_eq, (remove_timeout_rearm s Hp). split; reflexivity. }
  destruct Hs as [Hs Hem]. split; [exact Hs|].
  simpl run.
  rewrite (proj1 (loop_only_inert es' _ Hs Hl)). exact Hem.
Qed.

(** X6. A blank query is never saved: when the entry holds only
    whitespace, neither activation nor focus-out makes any call on the
    history, whatever the parser and the flag say. *)
Theorem blank_query_is_not_saved act s :
  forallb isspace (entry_text s) = true ->
  combo_calls (step is_parsable isspace (EntryActivate act) s)
  = combo_calls s
  /\ combo_calls (step is_parsable isspace (EntryFocusOut act) s)
     = combo_calls s.
Proof.
  intros Hb. split.
  - rewrite activate_combo_calls, (strip_blank isspace _ Hb). simpl.
    apply app_nil_r.
  - unfold step. rewrite save_search_eq, (strip_blank isspace _ Hb). simpl.
    destruct (negb (eager_search s)); reflexivity.
Qed.

End RunFacts.

(** ** From scheduling to emission *)

Section Firing.

Variable is_parsable : text -> bool.
Variable isspace : N -> bool.

(** An idle emission attached by [rearm] fires at the next dispatch of its
    tag. *)
Lemma idle_fires t u :
  dispatch is_parsable (GLib.next_id (loop u))
    (rearm (Some (GLib.OnIdle, EmitQueryChanged t)) u)
  = with_loop {| GLib.now := GLib.now (loop u);
                 GLib.next_id := N.succ (GLib.next_id (loop u));
                 GLib.pending := [] |}
      (emit_query_changed t
         (rearm (Some (GLib.OnIdle, EmitQueryChanged t)) u)).
Proof.
  rewrite (dispatch_spec is_parsable _ _ (rearm_pending_ok _ u)).
  unfold sources; simpl. rewrite N.eqb_refl.
  unfold GLib.ready, GLib.due; simpl. rewrite Z.leb_refl. reflexivity.
Qed.

(** A debounce timer attached by [rearm] fires once its delay has passed
    and hands over to the idle emission of the text then in the entry. *)
Lemma timer_fires d u :
  timeout <= d ->
  dispatch is_parsable (GLib.next_id (loop u))
    (with_loop
       (GLib.elapse d
          (loop (rearm (Some (GLib.OnTimeout timeout, FilterChanged)) u)))
       (rearm (Some (GLib.OnTimeout timeout, FilterChanged)) u))
  = rearm (if is_parsable (entry_text u)
           then Some (GLib.OnIdle, EmitQueryChanged (entry_text u))
           else None)
      (with_loop
         (GLib.elapse d
            (loop (rearm (Some (GLib.OnTimeout timeout, FilterChanged)) u)))
         (rearm (Some (GLib.OnTimeout timeout, FilterChanged)) u)).
Proof.
  intros Hd.
  set (s2 := with_loop _ _).
  assert (Hp : pending_ok s2).
  { exact (rearm_pending_ok
             (Some (GLib.OnTimeout timeout, FilterChanged)) u). }
  rewrite (dispatch_spec is_parsable _ _ Hp).
  rewrite (filter_changed_rearm is_parsable s2 Hp).
  set (r := rearm _ s2).
  unfold sources, s2; simpl. rewrite N.eqb_refl.
  unfold GLib.ready, GLib.due; simpl.
  replace (_ <=? _) with true by (symmetry; apply Z.leb_le; lia).
  reflexivity.
Qed.

Lemma keystroke_arms e s :
  quiescent s -> keystroke e -> eager_search s = true ->
  is_parsable (entry_text (step is_parsable isspace e s)) = true ->
  step is_parsable isspace e s
  = rearm (Some (GLib.OnTimeout timeout, FilterChanged))
      (with_entry_text (entry_text (step is_parsable isspace e s)) s).
Proof.
  intros [Hb Hp] Hkey He.
  destruct e; simpl in Hkey; try contradiction; subst act; unfold step.
  - unfold raise_text_changed. simpl sig_blocked. rewrite Hb.
    rewrite (text_changed_rearm is_parsable (-1) (with_entry_text t s) Hp).
    simpl. rewrite He. simpl.
    destruct (is_parsable t) eqn:Et; [reflexivity|].
    simpl. congruence.
  - rewrite (text_changed_rearm is_parsable (-1) s Hp).
    simpl. rewrite He. simpl.
    destruct (is_parsable (entry_text s)) eqn:Et.
    + intros _. destruct s; reflexivity.
    + simpl. congruence.
Qed.

(** X7. The debounced query does go out, once: after a keystroke (no
    dropdown row active, 'eager_search' enabled) that leaves a parsable
    text, when at least 400 ms pass and the main loop runs the timer and
    then the idle source, the log gains exactly that text and nothing
    remains attached. *)
Theorem debounced_query_fires_once eager es e d :
  let s := run is_parsable isspace es (init eager) in
  let id := GLib.next_id (loop s) in
  let s' := run is_parsable isspace
              [e; Elapse d; LoopDispatch id; LoopDispatch (N.succ id)] s in
  keystroke e ->
  eager_search s = true ->
  is_parsable (entry_text (step is_parsable isspace e s)) = true ->
  400 <= d ->
  emitted s' = emitted s ++ [entry_text (step is_parsable isspace e s)]
  /\ sources s' = []
  /\ entry_text s' = entry_text (step is_parsable isspace e s).
Proof.
  intros s id s' Hkey He Hok Hd.
  destruct (reachable_invariant is_parsable isspace eager es) as [Hq _].
  fold s in Hq. subst s'. simpl run.
  rewrite (keystroke_arms e s Hq Hkey He Hok).
  set (t := entry_text (step is_parsable isspace e s)) in *.
  change id with (GLib.next_id (loop (with_entry_text t s))).
  rewrite (timer_fires d (with_entry_text t s) Hd).
  change (entry_text (with_entry_text t s)) with t. rewrite Hok.
  match goal with
  | |- context [dispatch _ _ (rearm _ ?u)] =>
      change (N.succ (GLib.next_id (loop (with_entry_text t s))))
        with (GLib.next_id (loop u));
      rewrite (idle_fires t u)
  end.
  repeat split.
Qed.

(** X8. [__refill_id] outlives its source: after [changed()] on a
    parsable text and the dispatch of the idle source, the text has been
    emitted once and nothing is attached, yet [__refill_id] still holds the
    tag of the finished source; the next [__remove_timeout] removes nothing
    from the loop and only clears the field. *)
Theorem refill_id_outlives_its_source eager es :
  let s := run is_parsable isspace es (init eager) in
  let id := GLib.next_id (loop s) in
  let s' := run is_parsable isspace [CallChanged; LoopDispatch id] s in
  is_parsable (entry_text s) = true ->
  emitted s' = emitted s ++ [entry_text s]
  /\ sources s' = []
  /\ refill_id s' = Some id
  /\ remove_timeout s' = with_refill_id None s'.
Proof.
  intros s id s' Hok.
  destruct (reachable_invariant is_parsable isspace eager es) as [[_ Hp] _].
  fold s in Hp. subst s'. simpl run. unfold step, changed.
  rewrite (filter_changed_rearm is_parsable s Hp), Hok.
  subst id. rewrite (idle_fires (entry_text s) s).
  repeat split.
Qed.

(** X9. Picking a saved search is not debounced and does not depend on
    the flag: a 'text-changed' with a dropdown row active and a parsable
    text attaches the idle emission at once, so the next dispatch emits the
    text, whether 'eager_search' is enabled or not. *)
Theorem dropdown_selection_emits_at_once eager es t act :
  let s := run is_parsable isspace es (init eager) in
  let id := GLib.next_id (loop s) in
  act <> -1 ->
  is_parsable t = true ->
  sources (step is_parsable isspace (ComboTextChanged t act) s)
  = [idle_emission (with_entry_text t s)]
  /\ emitted (run is_parsable isspace
                [ComboTextChanged t act; LoopDispatch id] s)
     = emitted s ++ [t].
Proof.
  intros s id Hact Hok.
  destruct (reachable_invariant is_parsable isspace eager es) as [[Hb Hp] _].
  fold s in Hb, Hp.
  assert (E : step is_parsable isspace (ComboTextChanged t act) s
              = rearm (Some (GLib.OnIdle, EmitQueryChanged t))
                  (with_entry_text t s)).
  { unfold step, raise_text_changed. simpl sig_blocked. rewrite Hb.
    rewrite (text_changed_rearm is_parsable act (with_entry_text t s) Hp).
    replace (act =? -1) with false by (symmetry; apply Z.eqb_neq; exact Hact).
    simpl negb. cbv iota.
    rewrite (filter_changed_rearm is_parsable (with_entry_text t s) Hp).
    simpl entry_text. rewrite Hok. reflexivity. }
  split.
  - rewrite E. reflexivity.
  - cbn [run]. rewrite E. unfold step.
    change id with (GLib.next_id (loop (with_entry_text t s))).
    rewrite (idle_fires t (with_entry_text t s)). reflexivity.
Qed.

(** X10. Switching 'eager_search' off does not cancel a debounce already
    running: the armed timer stays through later edits, and when it fires
    it emits the text the entry holds by then, typed with the flag off. *)
Theorem armed_timer_survives_flag_off eager es e t' d :
  let s := run is_parsable isspace es (init eager) in
  let id := GLib.next_id (loop s) in
  let s' := run is_parsable isspace
              [e; ConfigEager false; ComboTextChanged t' (-1); Elapse d;
               LoopDispatch id; LoopDispatch (N.succ id)] s in
  keystroke e ->
  eager_search s = true ->
  is_parsable (entry_text (step is_parsable isspace e s)) = true ->
  is_parsable t' = true ->
  400 <= d ->
  eager_search s' = false /\ emitted s' = emitted s ++ [t'].
Proof.
  intros s id s' Hkey He Hok Hok' Hd.
  destruct (reachable_invariant is_parsable isspace eager es) as [Hq _].
  fold s in Hq. subst s'. cbn [run].
  rewrite (keystroke_arms e s Hq Hkey He Hok).
  set (t := entry_text (step is_parsable isspace e s)) in *.
  set (u := with_entry_text t' (with_eager_search false s)).
  assert (E : step is_parsable isspace (ComboTextChanged t' (-1))
                (step is_parsable isspace (ConfigEager false)
                   (rearm (Some (GLib.OnTimeout timeout, FilterChanged))
                      (with_entry_text t s)))
              = rearm (Some (GLib.OnTimeout timeout, FilterChanged)) u).
  { unfold step, raise_text_changed. simpl sig_blocked.
    rewrite (proj1 Hq). reflexivity. }
  rewrite E. unfold step.
  change id with (GLib.next_id (loop u)).
  rewrite (timer_fires d u Hd).
  change (entry_text u) with t'. rewrite Hok'.
  match goal with
  | |- context [dispatch _ _ (rearm _ ?v)] =>
      change (N.succ (GLib.next_id (loop u))) with (GLib.next_id (loop v));
      rewrite (idle_fires t' v)
  end.
  split; reflexivity.
Qed.

(** X11. The usual way to run a query from code: [set_text(t)] followed
    by [changed()] and one dispatch emits [t] exactly when it parses,
    whatever was pending before, and leaves nothing attached. *)
Theorem set_text_then_changed eager es t act :
  let s := run is_parsable isspace es (init eager) in
  let id := GLib.next_id (loop s) in
  let s' := run is_parsable isspace
              [CallSetText t act; CallChanged; LoopDispatch id] s in
  emitted s' = emitted s ++ (if is_parsable t then [t] else [])
  /\ sources s' = []
  /\ entry_text s' = t.
Proof.
  intros s id s'.
  destruct (reachable_invariant is_parsable isspace eager es) as [[_ Hp] _].
  fold s in Hp. subst s'. cbn [run]. unfold step, changed.
  rewrite set_text_eq, (remove_timeout_rearm s Hp).
  set (u := with_entry_text t (rearm None s)).
  assert (Hu : pending_ok u) by exact (rearm_pending_ok None s).
  rewrite (filter_changed_rearm is_parsable u Hu).
  change (entry_text u) with t. destruct (is_parsable t).
  - change id with (GLib.next_id (loop u)).
    rewrite (idle_fires t u). simpl. repeat split.
  - unfold dispatch, GLib.lookup. simpl.
    rewrite app_nil_r. repeat split.
Qed.

(** X12. Activation schedules the text as typed and saves it stripped:
    afterwards the idle emission of the unstripped entry text is the one
    source attached when that text parses (none otherwise), and the history
    has received the stripped text and a write when the stripped text is
    non-empty and parses.  Nothing is emitted yet and the entry is
    unchanged. *)
Theorem activate_schedules_and_saves eager es act :
  let s := run is_parsable isspace es (init eager) in
  let s' := step is_parsable isspace (EntryActivate act) s in
  let t := strip isspace (entry_text s) in
  sources s' = (if is_parsable (entry_text s) then [idle_emission s] else [])
  /\ combo_calls s'
     = combo_calls s
       ++ (if truthy t && is_parsable t
           then [PrependText t; WriteHistory] else [])
  /\ emitted s' = emitted s
  /\ entry_text s' = entry_text s.
Proof.
  intros s s' t.
  destruct (reachable_invariant is_parsable isspace eager es) as [[_ Hp] _].
  fold s in Hp.
  split; [|split; [apply activate_combo_calls|]].
  - subst s'. unfold step. rewrite save_search_eq.
    rewrite (filter_changed_rearm is_parsable s Hp).
    destruct (truthy [] && _); [|destruct (truthy _ && _)];
      destruct (is_parsable (entry_text s)); reflexivity.
  - subst s'. unfold step. rewrite save_search_eq.
    rewrite (filter_changed_rearm is_parsable s Hp).
    destruct (truthy [] && _); [|destruct (truthy _ && _)];
      destruct (is_parsable (entry_text s)); split; reflexivity.
Qed.

End Firing.


(** ** The limit box and the subclass *)

Lemma get_value_as_int_inject n sb :
  adj_value sb = inject_Z n -> get_value_as_int sb = n.
Proof.
  intros H. unfold get_value_as_int. rewrite H, Qfloor_Z, Qceiling_Z.
  destruct (Qlt_le_dec _ _); reflexivity.
Qed.

Lemma CLAMP_inject n :
  CLAMP (inject_Z n) 0 9999 = inject_Z (Z.max 0 (Z.min 9999 n)).
Proof.
  unfold CLAMP.
  destruct (Qle_bool (inject_Z n) 9999) eqn:E1.
  - apply Qle_bool_iff in E1. change 9999%Q with (inject_Z 9999) in E1.
    rewrite <- Zle_Qle in E1.
    destruct (Qle_bool 0 (inject_Z n)) eqn:E2.
    + apply Qle_bool_iff in E2. change 0%Q with (inject_Z 0) in E2.
      rewrite <- Zle_Qle in E2. f_equal. lia.
    + assert (~ 0 <= n).
      { intros H. rewrite Zle_Qle in H. apply Qle_bool_iff in H.
        change (inject_Z 0) with 0%Q in H. congruence. }
      change 0%Q with (inject_Z 0). f_equal. lia.
  - assert (~ n <= 9999).
    { intros H. rewrite Zle_Qle in H. apply Qle_bool_iff in H.
      change (inject_Z 9999) with 9999%Q in H. congruence. }
    change 9999%Q with (inject_Z 9999). f_equal. lia.
Qed.

Section SubclassFacts.

Variable is_parsable : text -> bool.
Variable isspace : N -> bool.
Variable song : Type.
Variable limit_songs : list song -> Z -> bool -> list song.

Lemma run_app es1 : forall es2 s,
  run is_parsable isspace (es1 ++ es2) s
  = run is_parsable isspace es2 (run is_parsable isspace es1 s).
Proof.
  induction es1 as [|e es1 IH]; intros es2 s; simpl; [reflexivity|].
  apply IH.
Qed.

(** The subclass acts on the inherited widget through its events and
    [changed()] only. *)
Lemma limit_step_bar e w :
  exists es',
    bar (limit_step is_parsable isspace e w)
    = run is_parsable isspace es' (bar w).
Proof.
  destruct e; simpl.
  - exists [e]. reflexivity.
  - destruct (Qeq_bool _ _);
      [exists (@nil event) | exists [CallChanged]]; reflexivity.
  - exists [CallChanged]. reflexivity.
  - exists [CallChanged]. reflexivity.
  - destruct (limit_no_show_all (limit_box w)); exists (@nil event);
      reflexivity.
Qed.

Lemma limit_run_bar es : forall w,
  exists es',
    bar (limit_run is_parsable isspace es w)
    = run is_parsable isspace es' (bar w).
Proof.
  induction es as [|e es IH]; intros w; simpl.
  - exists (@nil event). reflexivity.
  - destruct (limit_step_bar e w) as [es1 H1].
    destruct (IH (limit_step is_parsable isspace e w)) as [es2 H2].
    exists (es1 ++ es2). rewrite run_app, <- H1. exact H2.
Qed.

(** X13. The search bar inside a [LimitSearchBarBox] keeps what the plain
    widget keeps, whatever is done to the limit controls as well: every
    emitted text is parsable, at most one source is attached, the
    'text-changed' handler is unblocked, and the history holds only clean
    prepend/write pairs. *)
Theorem limit_search_bar_keeps_invariants show_limit eager es :
  let b := bar (limit_run is_parsable isspace es
                  (LimitSearchBarBox_init show_limit eager)) in
  Forall (fun t => is_parsable t = true) (emitted b)
  /\ (List.length (sources b) <= 1)%nat
  /\ sig_blocked b = 0%nat
  /\ history_log is_parsable isspace (combo_calls b).
Proof.
  intros b.
  destruct (limit_run_bar es (LimitSearchBarBox_init show_limit eager))
    as [es' H].
  subst b. rewrite H. simpl bar.
  destruct (reachable_invariant is_parsable isspace eager es')
    as [[Hb Hp] [He _]].
  split; [exact He|]. split; [apply pending_ok_length, Hp|].
  split; [exact Hb|].
  apply run_history_log. constructor.
Qed.

(** X14. The limit box is off unless asked for: built with
    [show_limit=False], and as long as [toggle_limit_widgets] is not called
    with an active button, the box stays hidden, even through [show_all],
    and [limit] returns the songs it was given. *)
Theorem limit_hidden_by_default eager es songs :
  forallb (fun e => negb (shows_limit e)) es = true ->
  limit limit_songs
    (limit_run is_parsable isspace es (LimitSearchBarBox_init false eager))
    songs
  = songs.
Proof.
  intros Hes.
  assert (H : forall es w,
             forallb (fun e => negb (shows_limit e)) es = true ->
             limit_visible (limit_box w) = false ->
             limit_no_show_all (limit_box w) = true ->
             limit_visible
               (limit_box (limit_run is_parsable isspace es w)) = false).
  { clear. induction es as [|e es IH]; intros w Hes Hv Hn; simpl;
      [exact Hv|].
    simpl in Hes. apply andb_prop in Hes. destruct Hes as [He Hes].
    apply IH; [exact Hes | |]; destruct e; simpl; try assumption.
    - destruct (Qeq_bool _ _); exact Hv.
    - destruct button_active; [discriminate | reflexivity].
    - rewrite Hn. exact Hv.
    - destruct (Qeq_bool _ _); exact Hn.
    - destruct button_active; exact Hn.
    - rewrite Hn. exact Hn. }
  unfold limit. rewrite (H es _ Hes); reflexivity.
Qed.

(** X15. [toggle_limit_widgets] switches limiting with the button and
    keeps the settings: hidden, [limit] returns the songs; shown again, it
    calls [limit_songs] with the count and weighting set before; and each
    toggle runs [changed()] on the search bar. *)
Theorem toggle_limit_widgets_switches_limiting w songs :
  limit limit_songs (toggle_limit_widgets is_parsable false w) songs = songs
  /\ limit limit_songs
       (toggle_limit_widgets is_parsable true
          (toggle_limit_widgets is_parsable false w)) songs
     = limit_songs songs (value (limit_box w)) (weighted (limit_box w))
  /\ (forall b,
        bar (toggle_limit_widgets is_parsable b w)
        = changed is_parsable (bar w)
        /\ value (limit_box (toggle_limit_widgets is_parsable b w))
           = value (limit_box w)
        /\ weighted (limit_box (toggle_limit_widgets is_parsable b w))
           = weighted (limit_box w)).
Proof.
  split; [reflexivity|]. split; [reflexivity|].
  intros b. destruct b; repeat split.
Qed.

(** X16. The count read from the limit box is what was entered, cut to
    the range: after the spin button is set to the integer [n], [value] is
    0 for a negative [n], 9999 for one above 9999, and [n] in between. *)
Theorem spin_value_is_clamped show_limit eager es n :
  let w := limit_run is_parsable isspace es
             (LimitSearchBarBox_init show_limit eager) in
  value (limit_box
           (limit_step is_parsable isspace (SpinTo (inject_Z n)) w))
  = Z.max 0 (Z.min 9999 n).
Proof.
  intros w.
  assert (Hr : spin_in_range (limit_spin (limit_box w))).
  { subst w. apply limit_run_in_range. exact Limit_init_in_range. }
  destruct Hr as (Hl & Hu & _).
  unfold value. apply get_value_as_int_inject.
  simpl. destruct (Qeq_bool _ _); simpl; rewrite Hl, Hu; apply CLAMP_inject.
Qed.

(** X17. Acting on the limit controls re-runs the query: toggling the
    weight box, or setting the spin button to a different value, calls
    [changed()], so with a parsable text the idle emission is attached;
    setting the spin button to the value it has calls nothing. *)
Theorem limit_controls_rerun_query show_limit eager es v :
  let w := limit_run is_parsable isspace es
             (LimitSearchBarBox_init show_limit eager) in
  is_parsable (entry_text (bar w)) = true ->
  sources (bar (limit_step is_parsable isspace WeightToggled w))
  = [idle_emission (bar w)]
  /\ (Qeq_bool (adj_value (set_value v (limit_spin (limit_box w))))
               (adj_value (limit_spin (limit_box w))) = false ->
      sources (bar (limit_step is_parsable isspace (SpinTo v) w))
      = [idle_emission (bar w)])
  /\ (Qeq_bool (adj_value (set_value v (limit_spin (limit_box w))))
               (adj_value (limit_spin (limit_box w))) = true ->
      bar (limit_step is_parsable isspace (SpinTo v) w) = bar w).
Proof.
  intros w Hok.
  assert (Hp : pending_ok (bar w)).
  { subst w.
    destruct (limit_run_bar es (LimitSearchBarBox_init show_limit eager))
      as [es' H].
    rewrite H. apply (reachable_invariant is_parsable isspace eager es'). }
  assert (Hc : sources (changed is_parsable (bar w))
               = [idle_emission (bar w)]).
  { unfold changed. rewrite (filter_changed_rearm is_parsable _ Hp), Hok.
    reflexivity. }
  split; [exact Hc|]. split; intros E; unfold limit_step; cbv zeta;
    rewrite E.
  - exact Hc.
  - reflexivity.
Qed.

End SubclassFacts.

(** ** Instances of the further properties *)

Lemma cancelled_query_is_never_emitted_witness :
  forallb loop_only [Elapse 500; LoopDispatch 1] = true
  /\ emitted (run sample_is_parsable py_isspace
                [WidgetDestroy; Elapse 500; LoopDispatch 1]
                (run sample_is_parsable py_isspace
                   [ComboTextChanged (utext "a") (-1)] (init true)))
     = emitted (run sample_is_parsable py_isspace
                  [ComboTextChanged (utext "a") (-1)] (init true)).
Proof.
  split; [reflexivity|].
  apply (cancelled_query_is_never_emitted sample_is_parsable py_isspace true
           [ComboTextChanged (utext "a") (-1)] WidgetDestroy
           [Elapse 500; LoopDispatch 1]).
  - left. reflexivity.
  - reflexivity.
Defined.

Lemma blank_query_is_not_saved_witness :
  forallb py_isspace
    (entry_text (run accept_all py_isspace
                   [ComboTextChanged (utext "  ") (-1)] (init true))) = true
  /\ combo_calls
       (step accept_all py_isspace (EntryActivate (-1))
          (run accept_all py_isspace
             [ComboTextChanged (utext "  ") (-1)] (init true)))
     = combo_calls (run accept_all py_isspace
                      [ComboTextChanged (utext "  ") (-1)] (init true)).
Proof.
  split; [reflexivity|].
  apply (blank_query_is_not_saved accept_all py_isspace (-1)
           (run accept_all py_isspace
              [ComboTextChanged (utext "  ") (-1)] (init true))).
  reflexivity.
Defined.

Lemma debounced_query_fires_once_witness :
  keystroke (ComboTextChanged (utext "abc") (-1))
  /\ emitted (run sample_is_parsable py_isspace
                [ComboTextChanged (utext "abc") (-1); Elapse 400;
                 LoopDispatch 1; LoopDispatch 2] (init true))
     = [utext "abc"].
Proof.
  split; [reflexivity|].
  apply (debounced_query_fires_once sample_is_parsable py_isspace true []
           (ComboTextChanged (utext "abc") (-1)) 400);
    first [reflexivity | lia].
Defined.

Lemma refill_id_outlives_its_source_witness :
  sample_is_parsable
    (entry_text (run sample_is_parsable py_isspace
                   [ComboTextChanged (utext "a") (-1)] (init false))) = true
  /\ refill_id (run sample_is_parsable py_isspace
                  [CallChanged; LoopDispatch 1]
                  (run sample_is_parsable py_isspace
                     [ComboTextChanged (utext "a") (-1)] (init false)))
     = Some 1%N.
Proof.
  split; [reflexivity|].
  apply (refill_id_outlives_its_source sample_is_parsable py_isspace false
           [ComboTextChanged (utext "a") (-1)]).
  reflexivity.
Defined.

Lemma dropdown_selection_emits_at_once_witness :
  2 <> -1
  /\ emitted (run sample_is_parsable py_isspace
                [ComboTextChanged (utext "a") 2; LoopDispatch 1]
                (init false))
     = [utext "a"].
Proof.
  split; [discriminate|].
  apply (dropdown_selection_emits_at_once sample_is_parsable py_isspace
           false [] (utext "a") 2); [discriminate | reflexivity].
Defined.

Lemma armed_timer_survives_flag_off_witness :
  400 <= 400
  /\ emitted (run sample_is_parsable py_isspace
                [ComboTextChanged (utext "a") (-1); ConfigEager false;
                 ComboTextChanged (utext "ab") (-1); Elapse 400;
                 LoopDispatch 1; LoopDispatch 2] (init true))
     = [utext "ab"].
Proof.
  split; [lia|].
  apply (armed_timer_survives_flag_off sample_is_parsable py_isspace true []
           (ComboTextChanged (utext "a") (-1)) (utext "ab") 400);
    first [reflexivity | lia].
Defined.

Lemma limit_hidden_by_default_witness :
  forallb (fun e => negb (shows_limit e))
    [ShowAll; SpinTo 25; WeightToggled; Base CallChanged] = true
  /\ limit sample_limit_songs
       (limit_run accept_all py_isspace
          [ShowAll; SpinTo 25; WeightToggled; Base CallChanged]
          (LimitSearchBarBox_init false true))
       [1; 2; 3]%nat
     = [1; 2; 3]%nat.
Proof.
  split; [reflexivity|].
  apply (limit_hidden_by_default accept_all py_isspace nat
           sample_limit_songs true
           [ShowAll; SpinTo 25; WeightToggled; Base CallChanged]).
  reflexivity.
Defined.

Lemma limit_controls_rerun_query_witness :
  accept_all
    (entry_text (bar (limit_run accept_all py_isspace []
                        (LimitSearchBarBox_init true true)))) = true
  /\ sources
       (bar (limit_step accept_all py_isspace WeightToggled
               (limit_run accept_all py_isspace []
                  (LimitSearchBarBox_init true true))))
     = [idle_emission
          (bar (limit_run accept_all py_isspace []
                  (LimitSearchBarBox_init true true)))].
Proof.
  split; [reflexivity|].
  apply (limit_controls_rerun_query accept_all py_isspace true true [] 0%Q).
  reflexivity.
Defined.
